(** * Photon image viewer (src/main.c): security layer, loader, metadata,
      viewport geometry and key handling, embedded in Rocq.

    Conventions of the embedding.
    - A [char] is an [ascii]; a pointer to characters is the list of the bytes
      stored from the pointed address up to the end of the object ([buffer]).
      The C string it denotes is the prefix before the first NUL byte
      ([cstr]); a NULL pointer is [None].
    - [size_t] values are list indices and lengths, hence [nat]; the only
      subtractions on them in the source ([max_len - 1], [dest_size - 1]) sit
      behind a test for zero, so that no wrap-around can occur.
    - [int], [long] and [time_t] values are [Z].
    - [float] is IEEE-754 binary32, through [spec_float] at precision 24.
    - Calls into libc's [stat], SDL and SDL_image are answered by an
      environment record and written to a log of calls. *)

From Stdlib Require Import ZArith Bool Ascii String List Lia PeanoNat QArith Qround.
From Stdlib Require Import SpecFloat.
Import ListNotations.

Local Open Scope nat_scope.
Local Open Scope list_scope.

(** ** C strings *)

Module CString.

Definition buffer := list ascii.

Definition NUL : ascii := Ascii.zero.

Definition is_nul (c : ascii) : bool := Ascii.eqb c NUL.

(** A string literal of the source, without its terminator. *)
Definition lit (s : string) : list ascii := list_ascii_of_string s.

(** The array a string literal occupies in memory. *)
Definition c_str (s : string) : buffer := lit s ++ [NUL].

(** [strlen]: number of bytes before the first NUL. *)
Fixpoint strlen (s : buffer) : nat :=
  match s with
  | [] => 0
  | c :: s' => if is_nul c then 0 else S (strlen s')
  end.

(** The characters of the C string held in a buffer. *)
Definition cstr (s : buffer) : list ascii := firstn (strlen s) s.

(** [p[i]]. *)
Definition load (s : buffer) (i : nat) : ascii := nth i s NUL.

(** [p[i] = c]. A store past the end of the object is undefined in C; the
    model leaves the buffer as it is. *)
Fixpoint store (s : buffer) (i : nat) (c : ascii) : buffer :=
  match s, i with
  | [], _ => []
  | _ :: s', 0 => c :: s'
  | x :: s', S i' => x :: store s' i' c
  end.

(** Does [needle] (a literal, free of NUL) start the C string at [s]? *)
Fixpoint starts_with (needle : list ascii) (s : buffer) : bool :=
  match needle, s with
  | [], _ => true
  | _ :: _, [] => false
  | n :: needle', c :: s' =>
      if is_nul c then false else Ascii.eqb n c && starts_with needle' s'
  end.

(** [strstr]: offset of the first occurrence of [needle], NULL when absent. *)
Fixpoint strstr (s : buffer) (needle : list ascii) : option nat :=
  match s with
  | [] => match needle with [] => Some 0 | _ => None end
  | c :: s' =>
      if starts_with needle s then Some 0
      else if is_nul c then None
      else option_map S (strstr s' needle)
  end.

(** [memchr]: offset of the first [c] among the first [n] bytes. *)
Fixpoint memchr (s : buffer) (c : ascii) (n : nat) : option nat :=
  match n, s with
  | 0, _ => None
  | _, [] => None
  | S n', x :: s' =>
      if Ascii.eqb x c then Some 0 else option_map S (memchr s' c n')
  end.

(** [strrchr] for a character other than NUL: offset of its last occurrence
    in the C string. *)
Fixpoint strrchr (s : buffer) (c : ascii) : option nat :=
  match s with
  | [] => None
  | x :: s' =>
      if is_nul x then None
      else match strrchr s' c with
           | Some i => Some (S i)
           | None => if Ascii.eqb x c then Some 0 else None
           end
  end.

(** The [n] bytes [strncpy] writes: the characters of [src], then NUL
    padding once the source is exhausted. *)
Fixpoint strncpy_bytes (src : buffer) (n : nat) : list ascii :=
  match n with
  | 0 => []
  | S n' =>
      match src with
      | [] => NUL :: strncpy_bytes [] n'
      | c :: src' =>
          if is_nul c then NUL :: strncpy_bytes [] n'
          else c :: strncpy_bytes src' n'
      end
  end.

(** Writing a run of bytes at the start of a buffer, within its bounds. *)
Fixpoint overwrite (dest : buffer) (bytes : list ascii) : buffer :=
  match dest, bytes with
  | [], _ => []
  | _, [] => dest
  | _ :: dest', b :: bytes' => b :: overwrite dest' bytes'
  end.

Definition strncpy (dest src : buffer) (n : nat) : buffer :=
  overwrite dest (strncpy_bytes src n).

(** <ctype.h> in the "C" locale (the program never calls setlocale). Bytes
    from 128 on are neither printable nor space. *)
Definition code (c : ascii) : nat := nat_of_ascii c.

Definition isprint (c : ascii) : bool := (32 <=? code c) && (code c <=? 126).

Definition isspace (c : ascii) : bool :=
  ((9 <=? code c) && (code c <=? 13)) || (code c =? 32).

Definition tolower (c : ascii) : ascii :=
  if (65 <=? code c) && (code c <=? 90) then ascii_of_nat (code c + 32) else c.

(** [strcasecmp(a, b) == 0]. *)
Definition strcasecmp_eq (a b : buffer) : bool :=
  if list_eq_dec ascii_dec (map tolower (cstr a)) (map tolower (cstr b))
  then true else false.

End CString.

Import CString.

(** ** Security functions *)

Module Security.

Definition MAX_PATH_LENGTH : nat := 4096.
Definition MAX_FILENAME_LENGTH : nat := 256.
Definition MAX_FILE_SIZE : Z := (100 * 1024 * 1024)%Z.

Inductive SecurityResult : Set :=
  | SECURITY_OK
  | SECURITY_ERROR_INVALID_INPUT
  | SECURITY_ERROR_PATH_TOO_LONG
  | SECURITY_ERROR_FILE_TOO_LARGE
  | SECURITY_ERROR_ACCESS_DENIED
  | SECURITY_ERROR_MEMORY_ALLOCATION.

Definition SecurityResult_eq_dec (a b : SecurityResult) : {a = b} + {a <> b}.
Proof. decide equality. Defined.

Definition is_ok (r : SecurityResult) : bool :=
  match r with SECURITY_OK => true | _ => false end.

Definition is_some {A : Type} (o : option A) : bool :=
  match o with Some _ => true | None => false end.

Definition validate_filepath (filepath : option buffer) : SecurityResult :=
  match filepath with
  | None => SECURITY_ERROR_INVALID_INPUT
  | Some p =>
      let len := strlen p in
      if (len =? 0) || (MAX_PATH_LENGTH <=? len) then
        SECURITY_ERROR_PATH_TOO_LONG
      else if is_some (strstr p (lit "..")) then
        SECURITY_ERROR_ACCESS_DENIED
      else if is_some (memchr p NUL len) then
        SECURITY_ERROR_INVALID_INPUT
      else SECURITY_OK
  end.

(** The [switch] of [sanitize_filename] applied to one character. *)
Definition sanitize_char (c : ascii) : ascii :=
  if Ascii.eqb c "<" || Ascii.eqb c ">" || Ascii.eqb c ":"
     || Ascii.eqb c "034" || Ascii.eqb c "|" || Ascii.eqb c "?"
     || Ascii.eqb c "*"
  then "_"%char
  else if negb (isprint c) && negb (isspace c) then "_"%char
  else c.

(** [for (i = start; i < start + n; i++) body], on a state [St]. *)
Fixpoint for_range {St : Type} (n start : nat) (body : nat -> St -> St) (s : St) : St :=
  match n with
  | 0 => s
  | S n' => for_range n' (S start) body (body start s)
  end.

Definition sanitize_filename (filename : option buffer) (max_len : nat)
  : SecurityResult * option buffer :=
  match filename with
  | None => (SECURITY_ERROR_INVALID_INPUT, filename)
  | Some buf =>
      if max_len =? 0 then (SECURITY_ERROR_INVALID_INPUT, filename)
      else
        let len := strlen buf in
        if max_len <=? len then (SECURITY_ERROR_PATH_TOO_LONG, filename)
        else
          (* i < len && i < max_len - 1 *)
          let buf1 :=
            for_range (Nat.min len (max_len - 1)) 0
              (fun i b => store b i (sanitize_char (load b i))) buf in
          (SECURITY_OK, Some (store buf1 (max_len - 1) NUL))
  end.

Definition validate_image_size (file_size : Z) : SecurityResult :=
  if (file_size <? 0)%Z then SECURITY_ERROR_INVALID_INPUT
  else if (file_size >? MAX_FILE_SIZE)%Z then SECURITY_ERROR_FILE_TOO_LARGE
  else SECURITY_OK.

(** [dest] is returned as it is left by the call. *)
Definition secure_strncpy (dest : option buffer) (src : option buffer)
    (dest_size : nat) : option buffer :=
  match dest, src with
  | Some d, Some s =>
      if dest_size =? 0 then dest
      else Some (store (strncpy d s (dest_size - 1)) (dest_size - 1) NUL)
  | _, _ => dest
  end.

(** [secure_memzero]: the volatile byte loop. *)
Definition secure_memzero (ptr : option buffer) (size : nat) : option buffer :=
  match ptr with
  | Some buf =>
      if 0 <? size then Some (for_range size 0 (fun i b => store b i NUL) buf)
      else ptr
  | None => ptr
  end.

(** *** The heap, for [safe_free]

    A heap maps the address of each live block to its bytes. [free] records
    what a block held at the moment it is handed back to the allocator. *)
Definition addr := nat.

Record memory : Type := {
  live : addr -> option buffer;
  released : list (addr * buffer)
}.

Definition set_block (m : memory) (a : addr) (b : option buffer) : memory :=
  {| live := fun x => if x =? a then b else live m x;
     released := released m |}.

(** [free(p)]; freeing an address that is not a live block is undefined in
    C and leaves the model's memory as it is. *)
Definition free (m : memory) (a : addr) : memory :=
  match live m a with
  | Some b =>
      {| live := fun x => if x =? a then None else live m x;
         released := released m ++ [(a, b)] |}
  | None => m
  end.

(** [safe_free(void **ptr)]: [ptr] is [None] when NULL, [Some None] when it
    points to a NULL pointer, [Some (Some a)] when it points to a pointer to
    the block at [a]. The result carries the new value of [*ptr]. *)
Definition safe_free (m : memory) (ptr : option (option addr))
  : memory * option (option addr) :=
  match ptr with
  | Some (Some a) =>
      let m1 := set_block m a (secure_memzero (live m a) 0) in
      let m2 := free m1 a in
      (m2, Some None)
  | _ => (m, ptr)
  end.

(** [memset(p, c, n)] *)
Definition memset (b : buffer) (c : ascii) (n : nat) : buffer :=
  for_range n 0 (fun i b => store b i c) b.

(** [safe_malloc(void **ptr, size_t size)]. [SIZE_MAX] is the platform's
    constant; [malloc] is the allocator's answer for a size: NULL, or the
    address of a block and the bytes it happens to hold. The result carries
    the new value of [*ptr]. *)
Definition safe_malloc (SIZE_MAX : N) (malloc : nat -> option (addr * buffer))
    (m : memory) (ptr : option (option addr)) (size : nat)
  : SecurityResult * memory * option (option addr) :=
  match ptr with
  | None => (SECURITY_ERROR_INVALID_INPUT, m, ptr)
  | Some _ =>
      if (size =? 0) || (SIZE_MAX / 2 <? N.of_nat size)%N then
        (SECURITY_ERROR_MEMORY_ALLOCATION, m, ptr)
      else
        match malloc size with
        | None => (SECURITY_ERROR_MEMORY_ALLOCATION, m, Some None)
        | Some (a, bytes) =>
            (SECURITY_OK, set_block m a (Some (memset bytes NUL size)),
             Some (Some a))
        end
  end.

End Security.

Import Security.

(** ** Single-precision floats *)

Module Float32.

Definition prec : Z := 24%Z.
Definition emax : Z := 128%Z.

Definition float := spec_float.

(** Conversion [int -> float], to nearest even. *)
Definition of_int (z : Z) : float := binary_normalize prec emax z 0 false.

Definition mul : float -> float -> float := SFmul prec emax.
Definition div : float -> float -> float := SFdiv prec emax.

(** [a > b] *)
Definition gt (a b : float) : bool := SFltb b a.

(** The constants [1.0f], [1.2f] and [1.1f]. *)
Definition f1_0 : float := S754_finite false 8388608 (-23).
Definition f1_2 : float := S754_finite false 10066330 (-23).
Definition f1_1 : float := S754_finite false 9227469 (-23).

Definition INT_MIN : Z := (- 2 ^ 31)%Z.
Definition INT_MAX : Z := (2 ^ 31 - 1)%Z.

(** The integer part of a finite float, towards zero. *)
Definition truncate (s : bool) (m : positive) (e : Z) : Z :=
  match e with
  | Zneg p => cond_Zopp s (Zpos m / Zpos (2 ^ p))
  | _ => cond_Zopp s (Zpos m) * 2 ^ e
  end.

(** Conversion [(int)f]. C leaves it undefined when the integer part does not
    fit in [int] and for infinities and NaN: [None]. *)
Definition to_int (f : float) : option Z :=
  match f with
  | S754_zero _ => Some 0%Z
  | S754_finite s m e =>
      let z := truncate s m e in
      if ((INT_MIN <=? z) && (z <=? INT_MAX))%Z then Some z else None
  | S754_infinity _ => None
  | S754_nan => None
  end.

(** The rational a float stands for. *)
Definition to_Q (f : float) : option Q :=
  match f with
  | S754_zero _ => Some 0%Q
  | S754_finite s m (Zneg p) => Some (cond_Zopp s (Zpos m) # 2 ^ p)%Q
  | S754_finite s m e => Some (inject_Z (cond_Zopp s (Zpos m) * 2 ^ e))
  | S754_infinity _ => None
  | S754_nan => None
  end.

End Float32.

Import Float32.

(** ** The viewer *)

Module Viewer.

Local Open Scope Z_scope.

(** Handles of SDL objects. *)
Definition SDL_Window := nat.
Definition SDL_Renderer := nat.
Definition SDL_Texture := nat.

(** What the program reads of an [SDL_Surface]: [w], [h] and
    [format->BitsPerPixel]. *)
Record SDL_Surface : Type := {
  surface_w : Z;
  surface_h : Z;
  BitsPerPixel : Z
}.

Record SDL_Rect : Type := { x : Z; y : Z; w : Z; h : Z }.

Record App : Type := {
  window : option SDL_Window;
  renderer : option SDL_Renderer;
  image_texture : option SDL_Texture;
  window_width : Z;
  window_height : Z;
  image_width : Z;
  image_height : Z;
  running : Z;
  zoom : float;
  pan_x : Z;
  pan_y : Z;
  fit_to_window : Z;
  show_info : Z
}.

Record ImageMetadata : Type := {
  filename : buffer;          (* char filename[256] *)
  filepath : buffer;          (* char filepath[512] *)
  width : Z;
  height : Z;
  file_size : Z;
  bits_per_pixel : Z;
  format : buffer;            (* char format[32] *)
  creation_time : Z;
  modification_time : Z
}.

(** The arrays of an [ImageMetadata] have their declared sizes. *)
Definition metadata_sized (md : ImageMetadata) : Prop :=
  length (filename md) = 256%nat /\ length (filepath md) = 512%nat
  /\ length (format md) = 32%nat.

(** [ImageMetadata metadata = {0}] *)
Definition metadata_zero : ImageMetadata :=
  {| filename := repeat NUL 256; filepath := repeat NUL 512;
     width := 0; height := 0; file_size := 0; bits_per_pixel := 0;
     format := repeat NUL 32; creation_time := 0; modification_time := 0 |}.

(** *** The collaborators *)

Record struct_stat : Type := { st_size : Z; st_ctime : Z; st_mtime : Z }.

(** The answers of the file system, of the decoder and of the renderer to
    the calls of one operation; paths are passed as C strings. *)
Record Env : Type := {
  stat : list ascii -> option struct_stat;
  IMG_Load : list ascii -> option SDL_Surface;
  SDL_CreateTextureFromSurface : SDL_Surface -> option SDL_Texture
}.

Inductive Call : Type :=
  | call_stat (path : list ascii)
  | call_IMG_Load (path : list ascii)
  | call_SDL_FreeSurface (s : SDL_Surface)
  | call_SDL_DestroyTexture (t : SDL_Texture)
  | call_SDL_CreateTextureFromSurface (s : SDL_Surface).

Definition is_call_stat (c : Call) : bool :=
  match c with call_stat _ => true | _ => false end.

Definition is_call_IMG_Load (c : Call) : bool :=
  match c with call_IMG_Load _ => true | _ => false end.

(** *** Image loading *)

Definition set_image_texture (app : App) (t : option SDL_Texture) : App :=
  {| window := window app; renderer := renderer app; image_texture := t;
     window_width := window_width app; window_height := window_height app;
     image_width := image_width app; image_height := image_height app;
     running := running app; zoom := zoom app; pan_x := pan_x app;
     pan_y := pan_y app; fit_to_window := fit_to_window app;
     show_info := show_info app |}.

Definition set_image_size (app : App) (iw ih : Z) : App :=
  {| window := window app; renderer := renderer app;
     image_texture := image_texture app;
     window_width := window_width app; window_height := window_height app;
     image_width := iw; image_height := ih;
     running := running app; zoom := zoom app; pan_x := pan_x app;
     pan_y := pan_y app; fit_to_window := fit_to_window app;
     show_info := show_info app |}.

(** The result, the [App] as the call leaves it, and the calls made, in
    order. *)
Definition load_image_secure (env : Env) (app : option App)
    (image_path : option buffer) : SecurityResult * option App * list Call :=
  match app, image_path with
  | Some a, Some path =>
      let result := validate_filepath image_path in
      if negb (is_ok result) then (result, app, [])
      else
        match stat env (cstr path) with
        | None => (SECURITY_ERROR_ACCESS_DENIED, app, [call_stat (cstr path)])
        | Some file_stat =>
            let log1 := [call_stat (cstr path)] in
            let result := validate_image_size (st_size file_stat) in
            if negb (is_ok result) then (result, app, log1)
            else
              let log2 := log1 ++ [call_IMG_Load (cstr path)] in
              match IMG_Load env (cstr path) with
              | None => (SECURITY_ERROR_ACCESS_DENIED, app, log2)
              | Some surface =>
                  if (surface_w surface <=? 0) || (surface_h surface <=? 0)
                     || (surface_w surface >? 32768)
                     || (surface_h surface >? 32768)
                  then (SECURITY_ERROR_INVALID_INPUT, app,
                        log2 ++ [call_SDL_FreeSurface surface])
                  else
                    let '(a1, log3) :=
                      match image_texture a with
                      | Some t =>
                          (set_image_texture a None,
                           log2 ++ [call_SDL_DestroyTexture t])
                      | None => (a, log2)
                      end in
                    let log4 :=
                      log3 ++ [call_SDL_CreateTextureFromSurface surface] in
                    let a2 :=
                      set_image_texture a1
                        (SDL_CreateTextureFromSurface env surface) in
                    match image_texture a2 with
                    | None =>
                        (SECURITY_ERROR_MEMORY_ALLOCATION, Some a2,
                         log4 ++ [call_SDL_FreeSurface surface])
                    | Some _ =>
                        (SECURITY_OK,
                         Some (set_image_size a2 (surface_w surface)
                                 (surface_h surface)),
                         log4 ++ [call_SDL_FreeSurface surface])
                    end
              end
        end
  | _, _ => (SECURITY_ERROR_INVALID_INPUT, app, [])
  end.

(** *** Metadata *)

Definition Unknown : buffer := c_str "Unknown".

Definition get_format_name (filepath : option buffer) : buffer :=
  match filepath with
  | None => Unknown
  | Some p =>
      let len := strlen p in
      if (len =? 0)%nat || (MAX_PATH_LENGTH <? len)%nat then Unknown
      else
        match strrchr p "." with
        | None => Unknown
        | Some i =>
            let ext := skipn (S i) p in
            if (10 <? strlen ext)%nat then Unknown
            else if strcasecmp_eq ext (c_str "png") then c_str "PNG"
            else if strcasecmp_eq ext (c_str "jpg")
                    || strcasecmp_eq ext (c_str "jpeg") then c_str "JPEG"
            else if strcasecmp_eq ext (c_str "bmp") then c_str "BMP"
            else if strcasecmp_eq ext (c_str "gif") then c_str "GIF"
            else Unknown
        end
  end.

(** [secure_strncpy] into an array, which is never NULL. *)
Definition copy_into (dest : buffer) (src : buffer) (dest_size : nat) : buffer :=
  match secure_strncpy (Some dest) (Some src) dest_size with
  | Some d => d
  | None => dest
  end.

Definition set_filepath (md : ImageMetadata) (b : buffer) : ImageMetadata :=
  {| filename := filename md; filepath := b; width := width md;
     height := height md; file_size := file_size md;
     bits_per_pixel := bits_per_pixel md; format := format md;
     creation_time := creation_time md;
     modification_time := modification_time md |}.

Definition set_filename (md : ImageMetadata) (b : buffer) : ImageMetadata :=
  {| filename := b; filepath := filepath md; width := width md;
     height := height md; file_size := file_size md;
     bits_per_pixel := bits_per_pixel md; format := format md;
     creation_time := creation_time md;
     modification_time := modification_time md |}.

Definition set_format (md : ImageMetadata) (b : buffer) : ImageMetadata :=
  {| filename := filename md; filepath := filepath md; width := width md;
     height := height md; file_size := file_size md;
     bits_per_pixel := bits_per_pixel md; format := b;
     creation_time := creation_time md;
     modification_time := modification_time md |}.

Definition set_file_info (md : ImageMetadata) (size ctime mtime : Z)
  : ImageMetadata :=
  {| filename := filename md; filepath := filepath md; width := width md;
     height := height md; file_size := size;
     bits_per_pixel := bits_per_pixel md; format := format md;
     creation_time := ctime; modification_time := mtime |}.

Definition set_pixel_info (md : ImageMetadata) (pw ph bpp : Z)
  : ImageMetadata :=
  {| filename := filename md; filepath := filepath md; width := pw;
     height := ph; file_size := file_size md;
     bits_per_pixel := bpp; format := format md;
     creation_time := creation_time md;
     modification_time := modification_time md |}.

(** The pointer [filename] of [extract_metadata], into [filepath]. *)
Definition filename_pointer (path : buffer) : buffer :=
  let filename := strrchr path "/" in
  let filename :=
    match filename with
    | None => strrchr path "\"
    | Some _ => filename
    end in
  match filename with
  | Some i => skipn (S i) path
  | None => path
  end.

(** The return value, [*metadata] as the call leaves it, and the calls made. *)
Definition extract_metadata (env : Env) (filepath_arg : option buffer)
    (metadata : option ImageMetadata) : Z * option ImageMetadata * list Call :=
  match filepath_arg, metadata with
  | Some path, Some md =>
      let sec_result := validate_filepath filepath_arg in
      if negb (is_ok sec_result) then (0, metadata, [])
      else
        let md := set_filepath md (copy_into (filepath md) path 512) in
        let md :=
          set_filename md (copy_into (filename md) (filename_pointer path) 256) in
        let '(sec_result, sanitized) :=
          sanitize_filename (Some (filename md)) 256 in
        let md :=
          match sanitized with
          | Some b => set_filename md b
          | None => md
          end in
        if negb (is_ok sec_result) then (0, Some md, [])
        else
          let md :=
            set_format md (copy_into (format md) (get_format_name filepath_arg) 32) in
          let log1 := [call_stat (cstr path)] in
          let after_stat :=
            match stat env (cstr path) with
            | Some file_stat =>
                if negb (is_ok (validate_image_size (st_size file_stat)))
                then None
                else Some (set_file_info md (st_size file_stat)
                             (st_ctime file_stat) (st_mtime file_stat))
            | None => Some (set_file_info md 0 0 0)
            end in
          match after_stat with
          | None => (0, Some md, log1)
          | Some md =>
              let log2 := log1 ++ [call_IMG_Load (cstr path)] in
              match IMG_Load env (cstr path) with
              | Some surface =>
                  (1, Some (set_pixel_info md (surface_w surface)
                              (surface_h surface) (BitsPerPixel surface)),
                   log2 ++ [call_SDL_FreeSurface surface])
              | None => (1, Some (set_pixel_info md 0 0 0), log2)
              end
          end
  | _, _ => (0, metadata, [])
  end.

(** *** Viewport geometry *)

(** [int] arithmetic, reduced to 32 bits in two's complement. *)
Definition int_wrap (z : Z) : Z := (z + 2 ^ 31) mod 2 ^ 32 - 2 ^ 31.

Definition int_add (a b : Z) : Z := int_wrap (a + b).
Definition int_sub (a b : Z) : Z := int_wrap (a - b).
(** [a / 2] rounds towards zero. *)
Definition int_half (a : Z) : Z := Z.quot a 2.

(** The destination rectangle of [render_image] for an [App] holding a
    texture. The outer [None] is a float-to-int conversion that C leaves
    undefined; [Some None] is the early [return] without drawing. *)
Definition dest_rect (app : App) : option (option SDL_Rect) :=
  if negb (fit_to_window app =? 0) then
    let aspect_ratio := div (of_int (image_width app)) (of_int (image_height app)) in
    let window_aspect_ratio :=
      div (of_int (window_width app)) (of_int (window_height app)) in
    if gt aspect_ratio window_aspect_ratio then
      match to_int (div (of_int (window_width app)) aspect_ratio) with
      | Some rh =>
          Some (Some {| x := 0;
                        y := int_half (int_sub (window_height app) rh);
                        w := window_width app; h := rh |})
      | None => None
      end
    else
      match to_int (mul (of_int (window_height app)) aspect_ratio) with
      | Some rw =>
          Some (Some {| x := int_half (int_sub (window_width app) rw);
                        y := 0;
                        w := rw; h := window_height app |})
      | None => None
      end
  else
    match to_int (mul (of_int (image_width app)) (zoom app)) with
    | Some rw =>
        match to_int (mul (of_int (image_height app)) (zoom app)) with
        | Some rh =>
            if (rw <=? 0) || (rh <=? 0) || (rw >? 65536) || (rh >? 65536)
            then Some None
            else
              Some (Some
                {| x := int_add (pan_x app)
                          (int_half (int_sub (window_width app) rw));
                   y := int_add (pan_y app)
                          (int_half (int_sub (window_height app) rh));
                   w := rw; h := rh |})
        | None => None
        end
    | None => None
    end.

Inductive RenderCall : Type :=
  | SDL_SetRenderDrawColor (r g b a : Z)
  | SDL_RenderClear
  | SDL_RenderFillRect (rect : SDL_Rect)
  | SDL_RenderCopy (t : SDL_Texture) (dst : SDL_Rect)
  | SDL_RenderDrawRect (rect : SDL_Rect).

(** The drawing calls of [render_image], in order; [None] when the
    conversion of a size is undefined. *)
Definition render_image (app : option App) : option (list RenderCall) :=
  match app with
  | None => Some []
  | Some a =>
      let clear := [SDL_SetRenderDrawColor 25 25 35 255; SDL_RenderClear] in
      match image_texture a with
      | None => Some clear
      | Some t =>
          match dest_rect a with
          | None => None
          | Some None => Some clear
          | Some (Some d) =>
              Some (clear ++
                    [SDL_SetRenderDrawColor 0 0 0 50;
                     SDL_RenderFillRect
                       {| x := int_add (x d) 3; y := int_add (y d) 3;
                          w := w d; h := h d |};
                     SDL_RenderCopy t d;
                     SDL_SetRenderDrawColor 80 80 100 255;
                     SDL_RenderDrawRect d])
          end
      end
  end.

(** *** Events *)

Inductive SDL_Keycode : Set :=
  | SDLK_ESCAPE | SDLK_PLUS | SDLK_EQUALS | SDLK_MINUS | SDLK_f | SDLK_1
  | SDLK_i | SDLK_LEFT | SDLK_RIGHT | SDLK_other.

Inductive SDL_WindowEventID : Set :=
  | SDL_WINDOWEVENT_RESIZED | SDL_WINDOWEVENT_other.

Inductive SDL_Event : Type :=
  | SDL_QUIT
  | SDL_WINDOWEVENT (event : SDL_WindowEventID) (data1 data2 : Z)
  | SDL_KEYDOWN (sym : SDL_Keycode)
  | SDL_MOUSEWHEEL (wheel_y : Z)
  | SDL_other_event.

Definition set_running (app : App) (v : Z) : App :=
  {| window := window app; renderer := renderer app;
     image_texture := image_texture app;
     window_width := window_width app; window_height := window_height app;
     image_width := image_width app; image_height := image_height app;
     running := v; zoom := zoom app; pan_x := pan_x app;
     pan_y := pan_y app; fit_to_window := fit_to_window app;
     show_info := show_info app |}.

Definition set_window_size (app : App) (ww wh : Z) : App :=
  {| window := window app; renderer := renderer app;
     image_texture := image_texture app;
     window_width := ww; window_height := wh;
     image_width := image_width app; image_height := image_height app;
     running := running app; zoom := zoom app; pan_x := pan_x app;
     pan_y := pan_y app; fit_to_window := fit_to_window app;
     show_info := show_info app |}.

Definition set_zoom (app : App) (z : float) : App :=
  {| window := window app; renderer := renderer app;
     image_texture := image_texture app;
     window_width := window_width app; window_height := window_height app;
     image_width := image_width app; image_height := image_height app;
     running := running app; zoom := z; pan_x := pan_x app;
     pan_y := pan_y app; fit_to_window := fit_to_window app;
     show_info := show_info app |}.

Definition set_pan (app : App) (px py : Z) : App :=
  {| window := window app; renderer := renderer app;
     image_texture := image_texture app;
     window_width := window_width app; window_height := window_height app;
     image_width := image_width app; image_height := image_height app;
     running := running app; zoom := zoom app; pan_x := px;
     pan_y := py; fit_to_window := fit_to_window app;
     show_info := show_info app |}.

Definition set_fit_to_window (app : App) (v : Z) : App :=
  {| window := window app; renderer := renderer app;
     image_texture := image_texture app;
     window_width := window_width app; window_height := window_height app;
     image_width := image_width app; image_height := image_height app;
     running := running app; zoom := zoom app; pan_x := pan_x app;
     pan_y := pan_y app; fit_to_window := v;
     show_info := show_info app |}.

Definition set_show_info (app : App) (v : Z) : App :=
  {| window := window app; renderer := renderer app;
     image_texture := image_texture app;
     window_width := window_width app; window_height := window_height app;
     image_width := image_width app; image_height := image_height app;
     running := running app; zoom := zoom app; pan_x := pan_x app;
     pan_y := pan_y app; fit_to_window := fit_to_window app;
     show_info := v |}.

(** [!v] *)
Definition lnot (v : Z) : Z := if v =? 0 then 1 else 0.

(** The [switch] on [event.key.keysym.sym]. *)
Definition handle_key (app : App) (sym : SDL_Keycode) : App :=
  match sym with
  | SDLK_ESCAPE => set_running app 0
  | SDLK_PLUS | SDLK_EQUALS =>
      set_fit_to_window (set_zoom app (mul (zoom app) f1_2)) 0
  | SDLK_MINUS =>
      set_fit_to_window (set_zoom app (div (zoom app) f1_2)) 0
  | SDLK_f => set_pan (set_zoom (set_fit_to_window app 1) f1_0) 0 0
  | SDLK_1 => set_pan (set_zoom (set_fit_to_window app 0) f1_0) 0 0
  | SDLK_i => set_show_info app (lnot (show_info app))
  | SDLK_LEFT => app
  | SDLK_RIGHT => app
  | SDLK_other => app
  end.

(** The body of the polling loop, for one event. *)
Definition handle_event (app : App) (event : SDL_Event) : App :=
  match event with
  | SDL_QUIT => set_running app 0
  | SDL_WINDOWEVENT SDL_WINDOWEVENT_RESIZED data1 data2 =>
      set_window_size app data1 data2
  | SDL_WINDOWEVENT _ _ _ => app
  | SDL_KEYDOWN sym => handle_key app sym
  | SDL_MOUSEWHEEL wheel_y =>
      if wheel_y >? 0 then
        set_fit_to_window (set_zoom app (mul (zoom app) f1_1)) 0
      else if wheel_y <? 0 then
        set_fit_to_window (set_zoom app (div (zoom app) f1_1)) 0
      else app
  | SDL_other_event => app
  end.

(** [handle_events], on the events [SDL_PollEvent] hands out until the queue
    is empty. *)
Definition handle_events (app : App) (queue : list SDL_Event) : App :=
  fold_left handle_event queue app.

(** [initialize_sdl], once window and renderer exist: the initial state. *)
Definition initial_app (win : SDL_Window) (ren : SDL_Renderer) (ww wh : Z) : App :=
  {| window := Some win; renderer := Some ren; image_texture := None;
     window_width := ww; window_height := wh;
     image_width := 0; image_height := 0; running := 1; zoom := f1_0;
     pan_x := 0; pan_y := 0; fit_to_window := 1; show_info := 0 |}.

(** *** Logging and shutdown *)

(** A call of [SDL_Log]: with a literal or with ["%s"] and a string, the
    text; with the format of [load_image]'s success line, its arguments. *)
Inductive SDL_Log_call : Type :=
  | SDL_Log_text (text : list ascii)
  | SDL_Log_loaded (path : list ascii) (iw ih : Z).

(** [log_message]. [truncated] is what the local array [char truncated[1025]]
    holds on entry; the result is the calls of [SDL_Log] and the array as the
    function leaves it. *)
Definition log_message (truncated : buffer) (message : option buffer)
  : list SDL_Log_call * buffer :=
  match message with
  | None =>
      ([SDL_Log_text (lit "Warning: Attempted to log NULL message")], truncated)
  | Some msg =>
      let len := strlen msg in
      if (1024 <? len)%nat then
        let copied := copy_into truncated msg 1025 in
        let wiped :=
          match secure_memzero (Some copied) 1025 with
          | Some b => b
          | None => copied
          end in
        ([SDL_Log_text (lit "Warning: Message too long, truncating");
          SDL_Log_text (cstr copied)], wiped)
      else ([SDL_Log_text (cstr msg)], truncated)
  end.

(** [load_image]: the return value, the [App], the calls of the load and the
    line logged. *)
Definition load_image (env : Env) (app : option App)
    (image_path : option buffer)
  : Z * option App * list Call * list SDL_Log_call :=
  let '(result, app', calls) := load_image_secure env app image_path in
  match result with
  | SECURITY_OK =>
      (1, app', calls,
       match app', image_path with
       | Some a, Some path =>
           [SDL_Log_loaded (cstr path) (image_width a) (image_height a)]
       | _, _ => []
       end)
  | SECURITY_ERROR_INVALID_INPUT =>
      (0, app', calls,
       [SDL_Log_text (lit "Security error: Invalid input parameters")])
  | SECURITY_ERROR_PATH_TOO_LONG =>
      (0, app', calls,
       [SDL_Log_text (lit "Security error: File path too long")])
  | SECURITY_ERROR_FILE_TOO_LARGE =>
      (0, app', calls,
       [SDL_Log_text (lit "Security error: File size exceeds limit")])
  | SECURITY_ERROR_ACCESS_DENIED =>
      (0, app', calls,
       [SDL_Log_text (lit "Security error: Access denied or file not found")])
  | SECURITY_ERROR_MEMORY_ALLOCATION =>
      (0, app', calls,
       [SDL_Log_text (lit "Security error: Memory allocation failed")])
  end.

Inductive CleanupCall : Type :=
  | cleanup_SDL_DestroyTexture (t : SDL_Texture)
  | cleanup_SDL_DestroyRenderer (r : SDL_Renderer)
  | cleanup_SDL_DestroyWindow (win : SDL_Window)
  | cleanup_IMG_Quit
  | cleanup_SDL_Quit.

Definition is_destroy (c : CleanupCall) : bool :=
  match c with
  | cleanup_SDL_DestroyTexture _ => true
  | cleanup_SDL_DestroyRenderer _ => true
  | cleanup_SDL_DestroyWindow _ => true
  | _ => false
  end.

(** An [App] whose bytes are all zero: NULL handles, zero integers, and
    [+0.0f]. *)
Definition app_zero : App :=
  {| window := None; renderer := None; image_texture := None;
     window_width := 0; window_height := 0;
     image_width := 0; image_height := 0; running := 0;
     zoom := S754_zero false; pan_x := 0; pan_y := 0; fit_to_window := 0;
     show_info := 0 |}.

(** [cleanup]: the [App] as it is left by [secure_memzero(app, sizeof(App))]
    and the calls made. *)
Definition cleanup (app : option App) : option App * list CleanupCall :=
  match app with
  | None => (None, [])
  | Some a =>
      (Some app_zero,
       match image_texture a with
       | Some t => [cleanup_SDL_DestroyTexture t]
       | None => []
       end
       ++ match renderer a with
          | Some r => [cleanup_SDL_DestroyRenderer r]
          | None => []
          end
       ++ match window a with
          | Some win => [cleanup_SDL_DestroyWindow win]
          | None => []
          end
       ++ [cleanup_IMG_Quit; cleanup_SDL_Quit])
  end.

End Viewer.

Import Viewer.

(** ** Notions of the specification and sample inputs *)

(** [sub] occurs in [s] as a run of consecutive characters. *)
Definition contains (sub s : list ascii) : Prop :=
  exists pre post, s = pre ++ sub ++ post.

(** The characters the sanitizer must remove. *)
Definition is_reserved (c : ascii) : bool :=
  existsb (Ascii.eqb c) (lit "<>:|?*" ++ ["034"%char]).

(** What a sanitized name may hold. *)
Definition display_safe (c : ascii) : bool :=
  isprint c || isspace c || Ascii.eqb c "_".

(** A path of 4096 characters that starts with two dots. *)
Definition long_dotdot_path : buffer := lit ".." ++ repeat "a"%char 4094 ++ [NUL].

(** The bytes [a b NUL c d NUL]. *)
Definition embedded_nul_path : buffer := lit "ab" ++ NUL :: lit "cd" ++ [NUL].

(** An 8-byte buffer holding the name [a<b>c]. *)
Definition small_name_buffer : buffer := c_str "a<b>c" ++ repeat NUL 2.

(** A heap with one live block, at address 1, holding [ABCD]. *)
Definition heap_ABCD : memory :=
  {| live := fun a => if (a =? 1)%nat then Some (lit "ABCD") else None;
     released := [] |}.

(** A file system whose every file has 150 MiB. *)
Definition env_big : Env :=
  {| stat := fun _ => Some {| st_size := 150 * 1024 * 1024; st_ctime := 1;
                              st_mtime := 2 |};
     IMG_Load := fun _ => Some {| surface_w := 10; surface_h := 10;
                                  BitsPerPixel := 32 |};
     SDL_CreateTextureFromSurface := fun _ => Some 1%nat |}.

(** Small files that decode to 10x10 pixels, and a renderer that cannot
    make a texture. *)
Definition env_no_texture : Env :=
  {| stat := fun _ => Some {| st_size := 1000; st_ctime := 1; st_mtime := 2 |};
     IMG_Load := fun _ => Some {| surface_w := 10; surface_h := 10;
                                  BitsPerPixel := 32 |};
     SDL_CreateTextureFromSurface := fun _ => None |}.

(** No file can be statted or decoded. *)
Definition env_no_file : Env :=
  {| stat := fun _ => None;
     IMG_Load := fun _ => None;
     SDL_CreateTextureFromSurface := fun _ => Some 1%nat |}.

(** A viewer showing a 640x480 image held in texture 7. *)
Definition app_showing : App :=
  {| window := Some 1%nat; renderer := Some 2%nat; image_texture := Some 7%nat;
     window_width := 800; window_height := 600;
     image_width := 640; image_height := 480; running := 1; zoom := f1_0;
     pan_x := 0; pan_y := 0; fit_to_window := 1; show_info := 0 |}.

(** The decoder's surface has admissible dimensions. *)
Definition dimensions_ok (surface : SDL_Surface) : Prop :=
  (1 <= surface_w surface <= 32768 /\ 1 <= surface_h surface <= 32768)%Z.

(** [load_image_secure] gets as far as creating a texture from [surface]:
    the path is valid, can be statted, is small enough and decodes to a
    surface of admissible dimensions. *)
Definition reaches_texture_creation (env : Env) (path : option buffer)
    (surface : SDL_Surface) : Prop :=
  exists p file_stat,
    path = Some p
    /\ validate_filepath path = SECURITY_OK
    /\ stat env (cstr p) = Some file_stat
    /\ validate_image_size (st_size file_stat) = SECURITY_OK
    /\ IMG_Load env (cstr p) = Some surface
    /\ dimensions_ok surface.

(** The two path separators. *)
Definition is_separator (c : ascii) : bool :=
  Ascii.eqb c "/" || Ascii.eqb c "\".

(** The basename as the specification words it: what follows the last
    separator of either kind, the whole path when it has none. *)
Fixpoint spec_basename (s : list ascii) : list ascii :=
  match s with
  | [] => []
  | c :: s' =>
      if existsb is_separator s' then spec_basename s'
      else if is_separator c then s' else s
  end.

(** The name buffer [extract_metadata] hands to the sanitizer. *)
Definition copied_basename (md : ImageMetadata) (path : buffer) : buffer :=
  copy_into (filename md) (filename_pointer path) 256.

(** A rational whose integer part fits in an [int]. *)
Definition in_int_range (q : Q) : Prop :=
  (inject_Z INT_MIN <= q /\ q < inject_Z (INT_MAX + 1))%Q.

(** Rounding to the nearest integer, halves upwards. *)
Definition spec_round (q : Q) : Z := Qfloor (q + (1 # 2)).

(** The viewer of [app_showing] after [1] and then [+] twice: free mode at
    zoom 1.44. *)
Definition app_zoomed : App :=
  handle_events app_showing
    [SDL_KEYDOWN SDLK_1; SDL_KEYDOWN SDLK_PLUS; SDL_KEYDOWN SDLK_PLUS].

(** A viewer showing an image of [n] by [n] pixels after one press of [-]:
    free mode at zoom 1.0 / 1.2. *)
Definition app_small (n : Z) : App :=
  handle_events (set_image_size app_showing n n) [SDL_KEYDOWN SDLK_MINUS].

(** A heap without live blocks. *)
Definition heap_empty : memory := {| live := fun _ => None; released := [] |}.

(** An allocator that answers every request with a block at address 5 full
    of the byte [x]. *)
Definition malloc_at_5 (n : nat) : option (addr * buffer) :=
  Some (5%nat, repeat "x"%char n).

(** The limit of [size_t] on a 64-bit platform. *)
Definition SIZE_MAX_64 : N := (2 ^ 64 - 1)%N.

(** A character the sanitizer has no reason to touch. *)
Definition is_clean (c : ascii) : bool :=
  (isprint c || isspace c) && negb (is_reserved c).

(** Small files that decode to 10x10 pixels, and a renderer that makes
    texture 9. *)
Definition env_ok : Env :=
  {| stat := fun _ => Some {| st_size := 1000; st_ctime := 1; st_mtime := 2 |};
     IMG_Load := fun _ => Some {| surface_w := 10; surface_h := 10;
                                  BitsPerPixel := 32 |};
     SDL_CreateTextureFromSurface := fun _ => Some 9%nat |}.

(** The extensions [get_format_name] knows, in lower case, and their names. *)
Definition format_table : list (list ascii * buffer) :=
  [(lit "png", c_str "PNG"); (lit "jpg", c_str "JPEG");
   (lit "jpeg", c_str "JPEG"); (lit "bmp", c_str "BMP");
   (lit "gif", c_str "GIF")].

Definition is_call_SDL_FreeSurface (c : Call) : bool :=
  match c with call_SDL_FreeSurface _ => true | _ => false end.

(** A flag holds 0 or 1. *)
Definition is_flag (v : Z) : Prop := v = 0%Z \/ v = 1%Z.

(** What every state reached from the initial one satisfies. *)
Definition view_invariant (app : App) : Prop :=
  pan_x app = 0%Z /\ pan_y app = 0%Z
  /\ is_flag (running app) /\ is_flag (fit_to_window app)
  /\ is_flag (show_info app).

(** Small files that cannot be decoded. *)
Definition env_no_decode : Env :=
  {| stat := fun _ => Some {| st_size := 1000; st_ctime := 1; st_mtime := 2 |};
     IMG_Load := fun _ => None;
     SDL_CreateTextureFromSurface := fun _ => Some 9%nat |}.

(** A local array of 1025 bytes holding whatever the stack held. *)
Definition stack_garbage : buffer := repeat "#"%char 1025.

(** A message of 1030 characters. *)
Definition long_message : buffer := repeat "m"%char 1030 ++ [NUL].

(** ** C strings: facts *)

Section CStringFacts.

Lemma is_nul_true (c : ascii) : is_nul c = true <-> c = NUL.
Proof. unfold is_nul. apply Ascii.eqb_eq. Qed.

Lemma is_nul_false (c : ascii) : is_nul c = false <-> c <> NUL.
Proof. unfold is_nul. apply Ascii.eqb_neq. Qed.

Lemma strlen_le_length (s : buffer) : (strlen s <= length s)%nat.
Proof.
  induction s as [|c s IH]; simpl; [lia|].
  destruct (is_nul c); lia.
Qed.

Lemma cstr_nil : cstr [] = [].
Proof. reflexivity. Qed.

Lemma cstr_cons (c : ascii) (s : buffer) :
  cstr (c :: s) = if is_nul c then [] else c :: cstr s.
Proof. unfold cstr. simpl. destruct (is_nul c); reflexivity. Qed.

Lemma length_cstr (s : buffer) : length (cstr s) = strlen s.
Proof.
  unfold cstr. rewrite length_firstn. pose proof (strlen_le_length s). lia.
Qed.

(** No character of a C string is NUL. *)
Lemma cstr_no_nul (s : buffer) : Forall (fun c => is_nul c = false) (cstr s).
Proof.
  induction s as [|c s IH]; [constructor|].
  rewrite cstr_cons. destruct (is_nul c) eqn:E; constructor; assumption.
Qed.

(** A run of characters free of NUL, then a NUL: the string is the run. *)
Lemma cstr_app_nul (l r : list ascii) :
  Forall (fun c => is_nul c = false) l -> cstr (l ++ NUL :: r) = l.
Proof.
  induction 1 as [|c l Hc Hl IH]; simpl.
  - reflexivity.
  - rewrite cstr_cons, Hc. simpl in IH. now rewrite IH.
Qed.

Lemma strlen_app_nul (l r : list ascii) :
  Forall (fun c => is_nul c = false) l -> strlen (l ++ NUL :: r) = length l.
Proof.
  intros H. rewrite <- length_cstr. now rewrite cstr_app_nul.
Qed.

(** What follows the first NUL does not change the string. *)
Lemma cstr_idem (s : buffer) : cstr (cstr s) = cstr s.
Proof.
  induction s as [|c s IH]; [reflexivity|].
  rewrite cstr_cons. destruct (is_nul c) eqn:E; [reflexivity|].
  rewrite cstr_cons, E. now rewrite IH.
Qed.

(** [memchr] for NUL over the [strlen] first bytes finds nothing. *)
Lemma memchr_nul_strlen (s : buffer) : memchr s NUL (strlen s) = None.
Proof.
  induction s as [|c s IH]; [reflexivity|].
  simpl. destruct (is_nul c) eqn:E; [reflexivity|].
  simpl. unfold is_nul in E. rewrite E, IH. reflexivity.
Qed.

Lemma starts_with_spec (needle : list ascii) (s : buffer) :
  Forall (fun c => is_nul c = false) needle ->
  starts_with needle s = true <-> exists post, cstr s = needle ++ post.
Proof.
  intros Hn. revert s. induction Hn as [|n needle Hc Hn IH]; intros s.
  - simpl. split; [intros _; now exists (cstr s) | reflexivity].
  - destruct s as [|c s]; simpl.
    + split; [discriminate | intros [post H]; discriminate].
    + rewrite cstr_cons. destruct (is_nul c) eqn:E.
      * split; [discriminate | intros [post H]; discriminate].
      * rewrite andb_true_iff, Ascii.eqb_eq, IH. split.
        -- intros [-> [post H]]. exists post. now rewrite H.
        -- intros [post H]. injection H as -> H. split; [reflexivity|].
           now exists post.
Qed.

(** [strstr] finds the needle exactly when the string contains it. *)
Lemma strstr_spec (needle : list ascii) (s : buffer) :
  Forall (fun c => is_nul c = false) needle -> needle <> [] ->
  is_some (strstr s needle) = true <-> contains needle (cstr s).
Proof.
  intros Hn Hne. induction s as [|c s IH].
  - simpl. destruct needle as [|n needle]; [contradiction|]. simpl.
    split; [discriminate|]. intros [pre [post H]].
    destruct pre; discriminate.
  - simpl. destruct (starts_with needle (c :: s)) eqn:Hs.
    + split; [intros _ | reflexivity].
      apply starts_with_spec in Hs; [|assumption].
      destruct Hs as [post H]. now exists [], post.
    + assert (Hno : ~ exists post, cstr (c :: s) = needle ++ post).
      { intros H. apply starts_with_spec in H; [|assumption]. congruence. }
      rewrite cstr_cons in *. destruct (is_nul c) eqn:E.
      * split; [discriminate|]. intros [pre [post H]].
        destruct pre as [|p pre]; [|discriminate].
        destruct needle; [contradiction | discriminate].
      * assert (Hm : is_some (option_map S (strstr s needle))
                     = is_some (strstr s needle))
          by (destruct (strstr s needle); reflexivity).
        rewrite Hm, IH. split.
        -- intros [pre [post H]]. exists (c :: pre), post. simpl. now rewrite H.
        -- intros [pre [post H]]. destruct pre as [|p pre].
           ++ exfalso. apply Hno. exists post. exact H.
           ++ injection H as _ H. now exists pre, post.
Qed.

Lemma dotdot_no_nul : Forall (fun c => is_nul c = false) (lit "..").
Proof. repeat constructor. Qed.

End CStringFacts.

(** ** PathValidator *)

Section PathValidator.

(** The test for an embedded NUL can never fire: on a path that is not NULL
    the validator answers anything but [SECURITY_ERROR_INVALID_INPUT]. *)
Lemma validate_filepath_memchr_dead (p : buffer) :
  validate_filepath (Some p) <> SECURITY_ERROR_INVALID_INPUT.
Proof.
  unfold validate_filepath. rewrite memchr_nul_strlen. simpl.
  destruct (_ || _); [discriminate|].
  destruct (is_some _); discriminate.
Qed.

(** The validator sees the C string only. *)
Lemma validate_filepath_cstr (p : buffer) :
  validate_filepath (Some p) = validate_filepath (Some (cstr p)).
Proof.
  unfold validate_filepath. rewrite !memchr_nul_strlen.
  assert (Hl : strlen (cstr p) = strlen p).
  { rewrite <- !length_cstr. now rewrite cstr_idem. }
  rewrite Hl.
  assert (Hs : is_some (strstr p (lit "..")) = is_some (strstr (cstr p) (lit ".."))).
  { apply eq_true_iff_eq.
    rewrite !strstr_spec by (try exact dotdot_no_nul; discriminate).
    now rewrite cstr_idem. }
  now rewrite Hs.
Qed.

Example validate_embedded_nul :
  validate_filepath (Some embedded_nul_path) = SECURITY_OK.
Proof. reflexivity. Qed.

(** C3, as the claim states it, fails on a path of 4096 characters that
    starts with two dots: the length test comes first. *)
Lemma validate_filepath_dotdot_long :
  contains (lit "..") (cstr long_dotdot_path)
  /\ validate_filepath (Some long_dotdot_path) = SECURITY_ERROR_PATH_TOO_LONG
  /\ validate_filepath (Some long_dotdot_path) <> SECURITY_ERROR_ACCESS_DENIED.
Proof.
  split; [|split].
  - exists [], (repeat "a"%char 4094). vm_compute. reflexivity.
  - vm_compute. reflexivity.
  - vm_compute. discriminate.
Qed.

(** The three answers a path that is not NULL can get. *)
Lemma validate_filepath_cases (p : buffer) :
  validate_filepath (Some p) =
    if ((strlen p =? 0) || (MAX_PATH_LENGTH <=? strlen p))%nat
    then SECURITY_ERROR_PATH_TOO_LONG
    else if is_some (strstr p (lit ".."))
         then SECURITY_ERROR_ACCESS_DENIED else SECURITY_OK.
Proof.
  unfold validate_filepath. rewrite memchr_nul_strlen. reflexivity.
Qed.

Lemma validate_filepath_traversal (p : buffer) :
  (0 < strlen p < MAX_PATH_LENGTH)%nat ->
  contains (lit "..") (cstr p) ->
  validate_filepath (Some p) = SECURITY_ERROR_ACCESS_DENIED.
Proof.
  intros [Hlo Hhi] Hc. rewrite validate_filepath_cases.
  destruct (strlen p =? 0)%nat eqn:E0; [apply Nat.eqb_eq in E0; lia|].
  destruct (MAX_PATH_LENGTH <=? strlen p)%nat eqn:E1;
    [apply Nat.leb_le in E1; lia|].
  cbn [orb].
  apply strstr_spec in Hc; [|exact dotdot_no_nul|discriminate].
  now rewrite Hc.
Qed.

(** C3 (amended): every path of 1 to 4095 characters that contains the
    substring [..] is answered with [SECURITY_ERROR_ACCESS_DENIED]; a path
    of length 0 or of at least [MAX_PATH_LENGTH] characters is answered with
    [SECURITY_ERROR_PATH_TOO_LONG], whether or not it contains [..]. *)
Theorem validate_filepath_dotdot (p : buffer) :
  ((0 < strlen p < MAX_PATH_LENGTH)%nat ->
   contains (lit "..") (cstr p) ->
   validate_filepath (Some p) = SECURITY_ERROR_ACCESS_DENIED)
  /\ ((strlen p = 0 \/ MAX_PATH_LENGTH <= strlen p)%nat ->
      validate_filepath (Some p) = SECURITY_ERROR_PATH_TOO_LONG).
Proof.
  split; [exact (validate_filepath_traversal p)|].
  intros H. rewrite validate_filepath_cases.
  destruct (strlen p =? 0)%nat eqn:E0; [reflexivity|].
  destruct (MAX_PATH_LENGTH <=? strlen p)%nat eqn:E1; [reflexivity|].
  apply Nat.eqb_neq in E0. apply Nat.leb_gt in E1. lia.
Qed.

Lemma validate_filepath_dotdot_witness :
  validate_filepath (Some (c_str "../etc/passwd")) = SECURITY_ERROR_ACCESS_DENIED
  /\ validate_filepath (Some long_dotdot_path) = SECURITY_ERROR_PATH_TOO_LONG
  /\ validate_filepath (Some (c_str EmptyString))
     = SECURITY_ERROR_PATH_TOO_LONG.
Proof.
  split; [|split].
  - apply (proj1 (validate_filepath_dotdot (c_str "../etc/passwd"))).
    + vm_compute. split; apply Nat.leb_le; reflexivity.
    + exists [], (lit "/etc/passwd"). reflexivity.
  - apply (proj2 (validate_filepath_dotdot long_dotdot_path)).
    right. apply Nat.leb_le. vm_compute. reflexivity.
  - apply (proj2 (validate_filepath_dotdot (c_str EmptyString))).
    left. reflexivity.
Defined.

(** C4, as the claim states it, fails on the empty path: the answer is
    [SECURITY_ERROR_PATH_TOO_LONG]. *)
Lemma validate_filepath_empty_not_invalid_input :
  validate_filepath (Some (c_str EmptyString)) = SECURITY_ERROR_PATH_TOO_LONG
  /\ validate_filepath (Some (c_str EmptyString)) <> SECURITY_ERROR_INVALID_INPUT.
Proof. split; [reflexivity | discriminate]. Qed.

(** C4 (amended): an absent (NULL) path is answered with
    [SECURITY_ERROR_INVALID_INPUT]; an empty path is rejected with
    [SECURITY_ERROR_PATH_TOO_LONG]. *)
Theorem validate_filepath_absent_or_empty :
  validate_filepath None = SECURITY_ERROR_INVALID_INPUT
  /\ forall p : buffer, strlen p = 0%nat ->
       validate_filepath (Some p) = SECURITY_ERROR_PATH_TOO_LONG.
Proof.
  split; [reflexivity|].
  intros p H. unfold validate_filepath. now rewrite H.
Qed.

Lemma validate_filepath_absent_or_empty_witness :
  validate_filepath None = SECURITY_ERROR_INVALID_INPUT
  /\ validate_filepath (Some (c_str EmptyString)) = SECURITY_ERROR_PATH_TOO_LONG.
Proof.
  split.
  - exact (proj1 validate_filepath_absent_or_empty).
  - apply (proj2 validate_filepath_absent_or_empty (c_str EmptyString)). reflexivity.
Defined.

End PathValidator.

(** ** FilenameSanitizer *)

Section FilenameSanitizer.

Lemma sanitize_char_facts (c : ascii) :
  is_nul (sanitize_char c) = false
  /\ display_safe (sanitize_char c) = true
  /\ is_reserved (sanitize_char c) = false.
Proof.
  destruct c as [b0 b1 b2 b3 b4 b5 b6 b7].
  destruct b0, b1, b2, b3, b4, b5, b6, b7; vm_compute; repeat split.
Qed.

Lemma length_store (s : buffer) (i : nat) (c : ascii) :
  length (store s i c) = length s.
Proof.
  revert i. induction s as [|a s IH]; intros [|i]; simpl; auto.
Qed.

Lemma nth_error_store (s : buffer) (i : nat) (c : ascii) :
  (i < length s)%nat -> nth_error (store s i c) i = Some c.
Proof.
  revert i. induction s as [|a s IH]; intros [|i]; simpl; try lia; auto.
  intros H. apply IH. lia.
Qed.

(** Storing a NUL at or after the terminator leaves the string as it is. *)
Lemma cstr_store_nul (s : buffer) (i : nat) :
  (strlen s <= i)%nat -> cstr (store s i NUL) = cstr s.
Proof.
  revert i. induction s as [|a s IH]; intros i H; [destruct i; reflexivity|].
  simpl in H. destruct i as [|i]; simpl.
  - destruct (is_nul a) eqn:E; [|lia].
    rewrite !cstr_cons, E. reflexivity.
  - rewrite !cstr_cons. destruct (is_nul a); [reflexivity|].
    rewrite IH by lia. reflexivity.
Qed.

Section Loop.

Variable f : ascii -> ascii.

Let body := fun (i : nat) (b : buffer) => store b i (f (load b i)).

Lemma for_range_store_cons (n start : nat) (c : ascii) (s : buffer) :
  for_range n (S start) body (c :: s) = c :: for_range n start body s.
Proof.
  revert start s. induction n as [|n IH]; intros start s; [reflexivity|].
  simpl. unfold body at 2 4. simpl. apply IH.
Qed.

(** The loop rewrites the first [n] bytes through [f]. *)
Lemma for_range_store_map (n : nat) (s : buffer) :
  for_range n 0 body s = map f (firstn n s) ++ skipn n s.
Proof.
  revert s. induction n as [|n IH]; intros s; [reflexivity|].
  destruct s as [|c s].
  - simpl. clear IH. generalize 1%nat. induction n as [|n IHn]; intros k;
      [reflexivity|]. simpl. apply IHn.
  - simpl. unfold body at 2. simpl. rewrite for_range_store_cons.
    now rewrite IH.
Qed.

End Loop.

Lemma skipn_strlen (s : buffer) :
  skipn (strlen s) s = [] \/ exists r, skipn (strlen s) s = NUL :: r.
Proof.
  induction s as [|c s IH]; [now left|].
  simpl. destruct (is_nul c) eqn:E.
  - right. apply is_nul_true in E. subst c. now exists s.
  - exact IH.
Qed.

Lemma cstr_no_nul_id (l : list ascii) :
  Forall (fun c => is_nul c = false) l -> cstr l = l.
Proof.
  induction 1 as [|c l Hc Hl IH]; [reflexivity|].
  rewrite cstr_cons, Hc. now rewrite IH.
Qed.

(** Rewriting the characters of a string through a function that never
    yields NUL maps the string. *)
Lemma cstr_map_prefix (f : ascii -> ascii) (s : buffer) :
  (forall c, is_nul (f c) = false) ->
  cstr (map f (cstr s) ++ skipn (strlen s) s) = map f (cstr s).
Proof.
  intros Hf.
  assert (Hm : Forall (fun c => is_nul c = false) (map f (cstr s))).
  { apply Forall_forall. intros c Hc. apply in_map_iff in Hc.
    destruct Hc as [c0 [<- _]]. apply Hf. }
  destruct (skipn_strlen s) as [-> | [r ->]].
  - rewrite app_nil_r. now apply cstr_no_nul_id.
  - now apply cstr_app_nul.
Qed.

(** What a successful call leaves in the buffer. *)
Lemma sanitize_filename_ok (buf : buffer) (n : nat) (r : SecurityResult)
    (out : option buffer) :
  sanitize_filename (Some buf) n = (r, out) ->
  r = SECURITY_OK ->
  (0 < n)%nat /\ (strlen buf < n)%nat
  /\ out = Some (store (map sanitize_char (cstr buf) ++ skipn (strlen buf) buf)
                   (n - 1) NUL).
Proof.
  unfold sanitize_filename. intros H Hr.
  destruct (n =? 0)%nat eqn:E0; [injection H as <- _; discriminate|].
  destruct (n <=? strlen buf)%nat eqn:E1; [injection H as <- _; discriminate|].
  apply Nat.eqb_neq in E0. apply Nat.leb_gt in E1.
  injection H as _ <-.
  replace (Nat.min (strlen buf) (n - 1)) with (strlen buf) by lia.
  rewrite (for_range_store_map sanitize_char). repeat split; [lia | lia].
Qed.

(** The sanitizer maps the name through [sanitize_char]. *)
Lemma sanitize_filename_cstr (buf : buffer) (n : nat) (out : buffer) :
  sanitize_filename (Some buf) n = (SECURITY_OK, Some out) ->
  cstr out = map sanitize_char (cstr buf).
Proof.
  intros H. destruct (sanitize_filename_ok _ _ _ _ H eq_refl) as [Hn [Hl Ho]].
  injection Ho as ->.
  rewrite cstr_store_nul.
  - apply cstr_map_prefix. intros c. apply sanitize_char_facts.
  - rewrite <- length_cstr.
    rewrite cstr_map_prefix by (intros c; apply sanitize_char_facts).
    rewrite length_map, length_cstr. lia.
Qed.

(** C7: after a successful [sanitize_filename(s, n)], every character of the
    result up to its terminator is printable ASCII, whitespace or ['_'] and
    none is one of [<], [>], [:], the double quote, [|], [?] and [*]; the
    string is shorter than [n], and in a
    buffer of at least [n] bytes the byte at index [n - 1] is NUL. *)
Theorem sanitize_filename_safe (buf : buffer) (n : nat) (out : buffer) :
  sanitize_filename (Some buf) n = (SECURITY_OK, Some out) ->
  Forall (fun c => display_safe c = true /\ is_reserved c = false) (cstr out)
  /\ (strlen out < n)%nat
  /\ ((n <= length buf)%nat -> nth_error out (n - 1) = Some NUL).
Proof.
  intros H. pose proof (sanitize_filename_cstr _ _ _ H) as Hc.
  destruct (sanitize_filename_ok _ _ _ _ H eq_refl) as [Hn [Hl Ho]].
  split; [|split].
  - rewrite Hc. apply Forall_forall. intros c Hin. apply in_map_iff in Hin.
    destruct Hin as [c0 [<- _]]. split; apply sanitize_char_facts.
  - rewrite <- length_cstr, Hc, length_map, length_cstr. exact Hl.
  - intros Hcap. injection Ho as ->. apply nth_error_store.
    rewrite length_app, length_map, length_cstr, length_skipn.
    pose proof (strlen_le_length buf). lia.
Qed.

Lemma sanitize_filename_safe_witness :
  Forall (fun c => display_safe c = true /\ is_reserved c = false)
    (cstr (c_str "a_b_c" ++ repeat NUL 2))
  /\ (strlen (c_str "a_b_c" ++ repeat NUL 2) < 8)%nat
  /\ ((8 <= length small_name_buffer)%nat ->
      nth_error (c_str "a_b_c" ++ repeat NUL 2) (8 - 1) = Some NUL).
Proof.
  destruct (sanitize_filename_safe small_name_buffer 8 _ eq_refl)
    as [H1 [H2 H3]].
  split; [exact H1 | split; [exact H2 | intros _; apply H3]].
  apply Nat.leb_le. reflexivity.
Defined.

End FilenameSanitizer.

(** ** SecureMemory *)

Section SecureMemory.

(** A size of zero makes [secure_memzero] do nothing. *)
Lemma secure_memzero_0 (ptr : option buffer) : secure_memzero ptr 0 = ptr.
Proof. destruct ptr; reflexivity. Qed.

Lemma for_range_store_nul (n : nat) (b : buffer) :
  for_range n 0 (fun i b => store b i NUL) b = repeat NUL (Nat.min n (length b)) ++ skipn n b.
Proof.
  rewrite (for_range_store_map (fun _ => NUL)).
  f_equal. revert b. induction n as [|n IH]; intros [|c b]; simpl; auto.
  now rewrite IH.
Qed.

(** Given the size of the buffer, [secure_memzero] clears all of it. *)
Lemma secure_memzero_all (b : buffer) :
  b <> [] -> secure_memzero (Some b) (length b) = Some (repeat NUL (length b)).
Proof.
  intros Hb. unfold secure_memzero.
  destruct b as [|c b]; [contradiction|].
  change (0 <? length (c :: b))%nat with true. cbv iota.
  rewrite for_range_store_nul, Nat.min_id, skipn_all, app_nil_r. reflexivity.
Qed.

(** [safe_free] hands the block back with the bytes it held. *)
Lemma safe_free_keeps_bytes (m : memory) (a : addr) (b : buffer) :
  live m a = Some b ->
  released (fst (safe_free m (Some (Some a)))) = released m ++ [(a, b)].
Proof.
  intros H. unfold safe_free, free, set_block. simpl.
  rewrite secure_memzero_0, Nat.eqb_refl, H. reflexivity.
Qed.

(** C5: [safe_free] on a pointer to the block [ABCD]: the block is released
    still holding [ABCD], not four zero bytes; the pointer is reset to
    NULL. *)
Theorem safe_free_does_not_wipe :
  released (fst (safe_free heap_ABCD (Some (Some 1%nat))))
    = [(1%nat, lit "ABCD")]
  /\ lit "ABCD" <> repeat NUL 4
  /\ snd (safe_free heap_ABCD (Some (Some 1%nat))) = Some None.
Proof. split; [reflexivity | split; [discriminate | reflexivity]]. Qed.

End SecureMemory.

(** ** InteractionStateMachine *)

Section Interaction.

(** C9: pressing [f] twice leaves the state that pressing it once leaves:
    zoom 1.0, pan (0,0), fit-to-window set, the other fields as they were. *)
Theorem fit_key_idempotent (app : App) :
  handle_events app [SDL_KEYDOWN SDLK_f; SDL_KEYDOWN SDLK_f]
    = handle_events app [SDL_KEYDOWN SDLK_f]
  /\ handle_events app [SDL_KEYDOWN SDLK_f]
     = {| window := window app; renderer := renderer app;
          image_texture := image_texture app;
          window_width := window_width app;
          window_height := window_height app;
          image_width := image_width app; image_height := image_height app;
          running := running app; zoom := f1_0; pan_x := 0; pan_y := 0;
          fit_to_window := 1; show_info := show_info app |}.
Proof. split; reflexivity. Qed.

End Interaction.

(** ** ImageLoader *)

Section ImageLoader.

Lemma validate_filepath_not_alloc (path : option buffer) :
  validate_filepath path <> SECURITY_ERROR_MEMORY_ALLOCATION.
Proof.
  destruct path as [p|]; [|discriminate].
  rewrite validate_filepath_cases.
  destruct (_ || _)%nat; [discriminate|]. destruct (is_some _); discriminate.
Qed.

Lemma validate_image_size_not_alloc (size : Z) :
  validate_image_size size <> SECURITY_ERROR_MEMORY_ALLOCATION.
Proof.
  unfold validate_image_size.
  destruct (_ <? _)%Z; [discriminate|]. destruct (_ >? _)%Z; discriminate.
Qed.

Lemma is_ok_true (r : SecurityResult) : is_ok r = true <-> r = SECURITY_OK.
Proof. destruct r; simpl; split; congruence. Qed.

Lemma dimensions_ok_test (surface : SDL_Surface) :
  ((surface_w surface <=? 0) || (surface_h surface <=? 0)
   || (surface_w surface >? 32768) || (surface_h surface >? 32768))%Z = false
  <-> dimensions_ok surface.
Proof.
  unfold dimensions_ok. rewrite !orb_false_iff, !Z.leb_gt, !Z.gtb_ltb, !Z.ltb_ge.
  lia.
Qed.

(** The size test rejects what exceeds [MAX_FILE_SIZE]. *)
Lemma validate_image_size_too_large (size : Z) :
  (size > MAX_FILE_SIZE)%Z ->
  validate_image_size size = SECURITY_ERROR_FILE_TOO_LARGE.
Proof.
  intros H. unfold validate_image_size.
  assert (0 < MAX_FILE_SIZE)%Z by reflexivity.
  destruct (size <? 0)%Z eqn:E; [apply Z.ltb_lt in E; lia|].
  destruct (size >? MAX_FILE_SIZE)%Z eqn:E'; [reflexivity|].
  rewrite Z.gtb_ltb in E'. apply Z.ltb_ge in E'. lia.
Qed.

(** C8, as the claim states it, fails twice: a path of 4096 characters with
    two dots is answered [SECURITY_ERROR_PATH_TOO_LONG], and a file of
    150 MiB at a path with two dots is answered
    [SECURITY_ERROR_ACCESS_DENIED], not [SECURITY_ERROR_FILE_TOO_LARGE]. *)
Lemma load_image_secure_order_counterexample :
  (contains (lit "..") (cstr long_dotdot_path)
   /\ fst (fst (load_image_secure env_big (Some app_showing)
                  (Some long_dotdot_path)))
      = SECURITY_ERROR_PATH_TOO_LONG)
  /\ (exists file_stat,
        stat env_big (cstr (c_str "../big")) = Some file_stat
        /\ (st_size file_stat > MAX_FILE_SIZE)%Z
        /\ fst (fst (load_image_secure env_big (Some app_showing)
                       (Some (c_str "../big"))))
           = SECURITY_ERROR_ACCESS_DENIED).
Proof.
  split.
  - split; [exists [], (repeat "a"%char 4094) |]; vm_compute; reflexivity.
  - eexists. split; [reflexivity|]. split; reflexivity.
Qed.

(** C8 (amended): for a path that passes validation and whose stat reports
    more than [MAX_FILE_SIZE] bytes, the load answers
    [SECURITY_ERROR_FILE_TOO_LARGE] having called [stat] only, not the
    decoder; for a path of 1 to 4095 characters containing [..] it answers
    [SECURITY_ERROR_ACCESS_DENIED] without any call. The [App] is unchanged
    in both cases. *)
Theorem load_image_secure_short_circuit :
  (forall (env : Env) (app : App) (path : buffer) (file_stat : struct_stat),
      validate_filepath (Some path) = SECURITY_OK ->
      stat env (cstr path) = Some file_stat ->
      (st_size file_stat > MAX_FILE_SIZE)%Z ->
      load_image_secure env (Some app) (Some path)
        = (SECURITY_ERROR_FILE_TOO_LARGE, Some app, [call_stat (cstr path)]))
  /\ (forall (env : Env) (app : App) (path : buffer),
        (0 < strlen path < MAX_PATH_LENGTH)%nat ->
        contains (lit "..") (cstr path) ->
        load_image_secure env (Some app) (Some path)
          = (SECURITY_ERROR_ACCESS_DENIED, Some app, [])).
Proof.
  split.
  - intros env app path file_stat Hv Hs Hsz. unfold load_image_secure.
    rewrite Hv, Hs. cbn [is_ok negb].
    rewrite (validate_image_size_too_large _ Hsz). reflexivity.
  - intros env app path Hlen Hc. unfold load_image_secure.
    rewrite (validate_filepath_traversal _ Hlen Hc). reflexivity.
Qed.

Lemma load_image_secure_short_circuit_witness :
  load_image_secure env_big (Some app_showing) (Some (c_str "big.png"))
    = (SECURITY_ERROR_FILE_TOO_LARGE, Some app_showing,
       [call_stat (lit "big.png")])
  /\ load_image_secure env_big (Some app_showing) (Some (c_str "../etc/passwd"))
     = (SECURITY_ERROR_ACCESS_DENIED, Some app_showing, []).
Proof.
  split.
  - apply (proj1 load_image_secure_short_circuit env_big app_showing
             (c_str "big.png")
             {| st_size := 150 * 1024 * 1024; st_ctime := 1; st_mtime := 2 |}).
    + reflexivity.
    + reflexivity.
    + reflexivity.
  - apply (proj2 load_image_secure_short_circuit env_big app_showing
             (c_str "../etc/passwd")).
    + vm_compute. split; apply Nat.leb_le; reflexivity.
    + exists [], (lit "/etc/passwd"). reflexivity.
Defined.

(** The branches of [load_image_secure], one equation each. *)
Lemma load_image_secure_unfold (env : Env) (app : App) (p : buffer) :
  load_image_secure env (Some app) (Some p) =
    match validate_filepath (Some p) with
    | SECURITY_OK =>
        match stat env (cstr p) with
        | None => (SECURITY_ERROR_ACCESS_DENIED, Some app, [call_stat (cstr p)])
        | Some file_stat =>
            match validate_image_size (st_size file_stat) with
            | SECURITY_OK =>
                match IMG_Load env (cstr p) with
                | None =>
                    (SECURITY_ERROR_ACCESS_DENIED, Some app,
                     [call_stat (cstr p); call_IMG_Load (cstr p)])
                | Some surface =>
                    if ((surface_w surface <=? 0) || (surface_h surface <=? 0)
                        || (surface_w surface >? 32768)
                        || (surface_h surface >? 32768))%Z
                    then (SECURITY_ERROR_INVALID_INPUT, Some app,
                          [call_stat (cstr p); call_IMG_Load (cstr p);
                           call_SDL_FreeSurface surface])
                    else
                      let destroyed :=
                        match image_texture app with
                        | Some t => [call_SDL_DestroyTexture t]
                        | None => []
                        end in
                      let log :=
                        [call_stat (cstr p); call_IMG_Load (cstr p)]
                        ++ destroyed
                        ++ [call_SDL_CreateTextureFromSurface surface;
                            call_SDL_FreeSurface surface] in
                      match SDL_CreateTextureFromSurface env surface with
                      | None =>
                          (SECURITY_ERROR_MEMORY_ALLOCATION,
                           Some (set_image_texture app None), log)
                      | Some t =>
                          (SECURITY_OK,
                           Some (set_image_size
                                   (set_image_texture app (Some t))
                                   (surface_w surface) (surface_h surface)),
                           log)
                      end
                end
            | e => (e, Some app, [call_stat (cstr p)])
            end
        end
    | e => (e, Some app, [])
    end.
Proof.
  unfold load_image_secure.
  destruct (validate_filepath (Some p)); try reflexivity. cbn [is_ok negb].
  destruct (stat env (cstr p)) as [file_stat|]; [|reflexivity].
  destruct (validate_image_size (st_size file_stat)); try reflexivity.
  cbn [is_ok negb].
  destruct (IMG_Load env (cstr p)) as [surface|]; [|reflexivity].
  destruct (_ || _)%Z; [reflexivity|].
  destruct (image_texture app) as [t|];
    destruct (SDL_CreateTextureFromSurface env surface); reflexivity.
Qed.

(** C10: a load that fails with anything but
    [SECURITY_ERROR_MEMORY_ALLOCATION] (a failure of path validation, stat,
    the size check, decoding or the dimension check) leaves the [App] as it
    was. [SECURITY_ERROR_MEMORY_ALLOCATION] is the answer exactly when
    texture creation is reached and fails; then [image_texture] is NULL,
    everything else, [image_width] and [image_height] included, is as before
    the call, and a texture held before has been destroyed just before the
    attempt to create the new one. *)
Theorem load_image_secure_frame (env : Env) (app : App) (path : option buffer)
    (r : SecurityResult) (app' : option App) (log : list Call) :
  load_image_secure env (Some app) path = (r, app', log) ->
  (r <> SECURITY_OK -> r <> SECURITY_ERROR_MEMORY_ALLOCATION ->
   app' = Some app)
  /\ (r = SECURITY_ERROR_MEMORY_ALLOCATION <->
      exists surface, reaches_texture_creation env path surface
                      /\ SDL_CreateTextureFromSurface env surface = None)
  /\ (r = SECURITY_ERROR_MEMORY_ALLOCATION ->
      app' = Some (set_image_texture app None)
      /\ (forall a, app' = Some a ->
           image_texture a = None
           /\ image_width a = image_width app
           /\ image_height a = image_height app)
      /\ (forall t, image_texture app = Some t ->
           exists before surface,
             log = before ++ [call_SDL_DestroyTexture t;
                              call_SDL_CreateTextureFromSurface surface;
                              call_SDL_FreeSurface surface])).
Proof.
  intros H.
  destruct path as [p|].
  2:{ injection H as <- <- <-. split; [reflexivity|]. split.
      - split; [discriminate|]. intros [s [[p [st [Hp _]]] _]]. discriminate.
      - discriminate. }
  rewrite load_image_secure_unfold in H.
  pose proof (validate_filepath_not_alloc (Some p)) as Hva.
  assert (Hearly : forall e l, (r, app', log) = (e, Some app, l) ->
            e <> SECURITY_ERROR_MEMORY_ALLOCATION ->
            (forall surface, reaches_texture_creation env (Some p) surface ->
               SDL_CreateTextureFromSurface env surface = None -> False) ->
            (r <> SECURITY_OK -> r <> SECURITY_ERROR_MEMORY_ALLOCATION ->
             app' = Some app)
            /\ (r = SECURITY_ERROR_MEMORY_ALLOCATION <->
                exists surface, reaches_texture_creation env (Some p) surface
                      /\ SDL_CreateTextureFromSurface env surface = None)
            /\ (r = SECURITY_ERROR_MEMORY_ALLOCATION ->
                app' = Some (set_image_texture app None)
                /\ (forall a, app' = Some a ->
                     image_texture a = None
                     /\ image_width a = image_width app
                     /\ image_height a = image_height app)
                /\ (forall t, image_texture app = Some t ->
                     exists before surface,
                       log = before ++ [call_SDL_DestroyTexture t;
                                call_SDL_CreateTextureFromSurface surface;
                                call_SDL_FreeSurface surface]))).
  { intros e l Heq Hne Hno. injection Heq as -> -> ->.
    split; [reflexivity|]. split; [split|]; try contradiction.
    intros [s [Hr Hc]]. exfalso. exact (Hno s Hr Hc). }
  destruct (validate_filepath (Some p)) eqn:Ev;
    try (exfalso; apply Hva; reflexivity);
    try (symmetry in H; apply (Hearly _ _ H); [discriminate|];
         intros s [p0 [st [Hp [Hv _]]]] _; injection Hp as <-; congruence).
  destruct (stat env (cstr p)) as [file_stat|] eqn:Es.
  2:{ symmetry in H. apply (Hearly _ _ H); [discriminate|].
      intros s [p0 [st [Hp [_ [Hs _]]]]] _. injection Hp as <-. congruence. }
  pose proof (validate_image_size_not_alloc (st_size file_stat)) as Hsa.
  destruct (validate_image_size (st_size file_stat)) eqn:Ez;
    try (exfalso; apply Hsa; reflexivity);
    try (symmetry in H; apply (Hearly _ _ H); [discriminate|];
         intros s [p0 [st [Hp [_ [Hs [Hz _]]]]]] _; injection Hp as <-;
         congruence).
  destruct (IMG_Load env (cstr p)) as [surface|] eqn:Ei.
  2:{ symmetry in H. apply (Hearly _ _ H); [discriminate|].
      intros s [p0 [st [Hp [_ [_ [_ [Hi _]]]]]]] _. injection Hp as <-.
      congruence. }
  destruct (_ || _)%Z eqn:Ed.
  { symmetry in H. apply (Hearly _ _ H); [discriminate|].
    intros s [p0 [st [Hp [_ [_ [_ [Hi Hd]]]]]]] _. injection Hp as <-.
    rewrite Ei in Hi. injection Hi as <-.
    apply dimensions_ok_test in Hd. congruence. }
  apply dimensions_ok_test in Ed.
  assert (Hreach : reaches_texture_creation env (Some p) surface).
  { exists p, file_stat. repeat split; try assumption; apply Ed. }
  assert (Hsame : forall s, reaches_texture_creation env (Some p) s ->
                            s = surface).
  { intros s [p0 [st [Hp [_ [_ [_ [Hi _]]]]]]]. injection Hp as <-.
    congruence. }
  cbv zeta in H.
  destruct (SDL_CreateTextureFromSurface env surface) as [t|] eqn:Ec;
    injection H as <- <- <-.
  - split; [intros Hn; contradiction|]. split; [split|]; try discriminate.
    intros [s [Hr Hc]]. apply Hsame in Hr. subst s. congruence.
  - split; [intros _ Hn; contradiction|]. split.
    + split; [|reflexivity]. intros _. now exists surface.
    + intros _. split; [reflexivity|]. split.
      * intros a Ha. injection Ha as <-. repeat split.
      * intros t Ht. rewrite Ht.
        exists [call_stat (cstr p); call_IMG_Load (cstr p)], surface.
        reflexivity.
Qed.

Lemma load_image_secure_frame_witness :
  (Some app_showing = Some app_showing)
  /\ (Some (set_image_texture app_showing None)
       = Some (set_image_texture app_showing None)
     /\ (forall a, Some (set_image_texture app_showing None) = Some a ->
          image_texture a = None
          /\ image_width a = image_width app_showing
          /\ image_height a = image_height app_showing)
     /\ (forall t, image_texture app_showing = Some t ->
          exists before surface,
            [call_stat (lit "x.png"); call_IMG_Load (lit "x.png");
             call_SDL_DestroyTexture 7%nat;
             call_SDL_CreateTextureFromSurface
               {| surface_w := 10; surface_h := 10; BitsPerPixel := 32 |};
             call_SDL_FreeSurface
               {| surface_w := 10; surface_h := 10; BitsPerPixel := 32 |}]
            = before ++ [call_SDL_DestroyTexture t;
                         call_SDL_CreateTextureFromSurface surface;
                         call_SDL_FreeSurface surface])).
Proof.
  split.
  - apply (load_image_secure_frame env_no_file app_showing
             (Some (c_str "x.png")) SECURITY_ERROR_ACCESS_DENIED
             (Some app_showing) [call_stat (lit "x.png")]).
    + reflexivity.
    + discriminate.
    + discriminate.
  - apply (load_image_secure_frame env_no_texture app_showing
             (Some (c_str "x.png")) SECURITY_ERROR_MEMORY_ALLOCATION
             (Some (set_image_texture app_showing None))).
    + reflexivity.
    + reflexivity.
Defined.

End ImageLoader.

(** ** MetadataExtractor *)

Section MetadataExtractor.

Lemma length_overwrite (d : buffer) (bytes : list ascii) :
  length (overwrite d bytes) = length d.
Proof.
  revert bytes. induction d as [|a d IH]; intros [|b bytes]; simpl; auto.
Qed.

Lemma length_copy_into (d src : buffer) (n : nat) :
  length (copy_into d src n) = length d.
Proof.
  unfold copy_into, secure_strncpy. destruct (n =? 0)%nat; [reflexivity|].
  unfold strncpy. now rewrite length_store, length_overwrite.
Qed.

(** [secure_strncpy] into an array of at least [k + 1] bytes leaves the
    first [k] characters of the source string. *)
Lemma cstr_copy (k : nat) (src d : buffer) :
  (k < length d)%nat ->
  cstr (store (overwrite d (strncpy_bytes src k)) k NUL) = firstn k (cstr src).
Proof.
  revert src d. induction k as [|k IH]; intros src d Hk.
  - destruct d as [|a d]; [simpl in Hk; lia|]. reflexivity.
  - destruct d as [|a d]; [simpl in Hk; lia|]. simpl in Hk.
    destruct src as [|c src]; [reflexivity|].
    cbn [strncpy_bytes]. rewrite cstr_cons.
    destruct (is_nul c) eqn:E; [reflexivity|].
    cbn [overwrite store firstn]. rewrite cstr_cons, E.
    rewrite IH by lia. reflexivity.
Qed.

Lemma cstr_copy_into (d src : buffer) (n : nat) :
  (0 < n <= length d)%nat ->
  cstr (copy_into d src n) = firstn (n - 1) (cstr src).
Proof.
  intros Hn. unfold copy_into, secure_strncpy.
  destruct (n =? 0)%nat eqn:E; [apply Nat.eqb_eq in E; lia|].
  unfold strncpy. apply cstr_copy. lia.
Qed.

Lemma strlen_copy_into (d src : buffer) (n : nat) :
  (0 < n)%nat -> (strlen (copy_into d src n) < n)%nat.
Proof.
  intros Hn. destruct (Nat.le_gt_cases n (length d)) as [Hle | Hgt].
  - rewrite <- length_cstr, cstr_copy_into, length_firstn by lia. lia.
  - pose proof (strlen_le_length (copy_into d src n)) as H.
    rewrite length_copy_into in H. lia.
Qed.

Lemma sanitize_filename_succeeds (buf : buffer) (n : nat) :
  (strlen buf < n)%nat ->
  exists out, sanitize_filename (Some buf) n = (SECURITY_OK, Some out).
Proof.
  intros H. unfold sanitize_filename.
  destruct (n =? 0)%nat eqn:E0; [apply Nat.eqb_eq in E0; lia|].
  destruct (n <=? strlen buf)%nat eqn:E1; [apply Nat.leb_le in E1; lia|].
  eexists. reflexivity.
Qed.

(** Inside [extract_metadata] the sanitizer always accepts: the copy of the
    basename is cut to 255 characters first. *)
Lemma extract_metadata_sanitizer_accepts (md : ImageMetadata) (path : buffer) :
  exists out,
    sanitize_filename (Some (copied_basename md path)) 256
      = (SECURITY_OK, Some out).
Proof.
  apply sanitize_filename_succeeds. apply strlen_copy_into. lia.
Qed.

(** [extract_metadata] once the path is validated and the name sanitized. *)
Lemma extract_metadata_unfold (env : Env) (path : buffer) (md : ImageMetadata)
    (out : buffer) :
  validate_filepath (Some path) = SECURITY_OK ->
  sanitize_filename (Some (copied_basename md path)) 256
    = (SECURITY_OK, Some out) ->
  extract_metadata env (Some path) (Some md) =
    let md1 :=
      set_format
        (set_filename (set_filepath md (copy_into (filepath md) path 512)) out)
        (copy_into (format md) (get_format_name (Some path)) 32) in
    let decode (md2 : ImageMetadata) :=
      match IMG_Load env (cstr path) with
      | Some surface =>
          (1%Z, Some (set_pixel_info md2 (surface_w surface)
                        (surface_h surface) (BitsPerPixel surface)),
           [call_stat (cstr path); call_IMG_Load (cstr path);
            call_SDL_FreeSurface surface])
      | None =>
          (1%Z, Some (set_pixel_info md2 0 0 0),
           [call_stat (cstr path); call_IMG_Load (cstr path)])
      end in
    match stat env (cstr path) with
    | Some file_stat =>
        if is_ok (validate_image_size (st_size file_stat))
        then decode (set_file_info md1 (st_size file_stat)
                       (st_ctime file_stat) (st_mtime file_stat))
        else (0%Z, Some md1, [call_stat (cstr path)])
    | None => decode (set_file_info md1 0 0 0)
    end.
Proof.
  intros Hv Hs. unfold extract_metadata, copied_basename in *.
  rewrite Hv. cbn [is_ok negb filename set_filepath set_filename].
  rewrite Hs. cbn [is_ok negb filename format set_filename set_filepath].
  destruct (stat env (cstr path)) as [file_stat|].
  - destruct (is_ok (validate_image_size (st_size file_stat)));
      [|reflexivity].
    cbn [negb]. destruct (IMG_Load env (cstr path)); reflexivity.
  - destruct (IMG_Load env (cstr path)); reflexivity.
Qed.

(** C2, as the claim states it, fails on a file of 150 MiB at a valid path:
    validator and sanitizer accept, and extraction still fails. *)
Lemma extract_metadata_size_counterexample :
  validate_filepath (Some (c_str "big.png")) = SECURITY_OK
  /\ fst (sanitize_filename
            (Some (copied_basename metadata_zero (c_str "big.png"))) 256)
     = SECURITY_OK
  /\ fst (fst (extract_metadata env_big (Some (c_str "big.png"))
                 (Some metadata_zero))) = 0%Z.
Proof. repeat split; vm_compute; reflexivity. Qed.

(** C2 (amended): [extract_metadata], given a record to fill, fails exactly
    when the validator rejects the path, the sanitizer rejects the copied
    basename, or stat succeeds and the size check rejects the size it
    reports. When validator and sanitizer accept and stat fails, extraction
    succeeds with [file_size], [creation_time] and [modification_time] at
    0. *)
Theorem extract_metadata_failure (env : Env) (path : buffer)
    (md : ImageMetadata) :
  (fst (fst (extract_metadata env (Some path) (Some md))) = 0%Z <->
     validate_filepath (Some path) <> SECURITY_OK
     \/ fst (sanitize_filename (Some (copied_basename md path)) 256)
        <> SECURITY_OK
     \/ exists file_stat,
          stat env (cstr path) = Some file_stat
          /\ validate_image_size (st_size file_stat) <> SECURITY_OK)
  /\ (validate_filepath (Some path) = SECURITY_OK ->
      fst (sanitize_filename (Some (copied_basename md path)) 256)
        = SECURITY_OK ->
      stat env (cstr path) = None ->
      exists md' log,
        extract_metadata env (Some path) (Some md) = (1%Z, Some md', log)
        /\ file_size md' = 0%Z /\ creation_time md' = 0%Z
        /\ modification_time md' = 0%Z).
Proof.
  destruct (SecurityResult_eq_dec (validate_filepath (Some path)) SECURITY_OK)
    as [Hv | Hv].
  2:{ split; [|contradiction]. split; [now left|]. intros _.
      unfold extract_metadata.
      destruct (validate_filepath (Some path)); try reflexivity.
      contradiction. }
  destruct (extract_metadata_sanitizer_accepts md path) as [out Hs].
  rewrite (extract_metadata_unfold env path md out Hv Hs), Hs.
  cbv zeta. cbn [fst].
  destruct (stat env (cstr path)) as [file_stat|] eqn:Est.
  - split; [|discriminate].
    destruct (validate_image_size (st_size file_stat)) eqn:Ez; cbn [is_ok fst];
      try (split; [intros _; right; right; exists file_stat;
                   split; [reflexivity | rewrite Ez; discriminate]
                  | reflexivity]).
    destruct (IMG_Load env (cstr path)); cbn [fst];
      (split; [discriminate|]);
      intros [H | [H | [st [Hst H]]]]; try contradiction;
      injection Hst as <-; contradiction.
  - split.
    + destruct (IMG_Load env (cstr path)); cbn [fst];
        (split; [discriminate|]);
        intros [H | [H | [st [Hst H]]]]; try contradiction; discriminate.
    + intros _ _ _.
      destruct (IMG_Load env (cstr path)); do 2 eexists;
        (split; [reflexivity|]); repeat split.
Qed.

Lemma extract_metadata_failure_witness :
  exists md' log,
    extract_metadata env_no_file (Some (c_str "pic.png")) (Some metadata_zero)
      = (1%Z, Some md', log)
    /\ file_size md' = 0%Z /\ creation_time md' = 0%Z
    /\ modification_time md' = 0%Z.
Proof.
  apply (proj2 (extract_metadata_failure env_no_file (c_str "pic.png")
                  metadata_zero)).
  - vm_compute. reflexivity.
  - vm_compute. reflexivity.
  - reflexivity.
Defined.

(** [strrchr] finds nothing exactly when the character is absent. *)
Lemma strrchr_None (s : buffer) (c : ascii) :
  strrchr s c = None -> ~ In c (cstr s).
Proof.
  induction s as [|a s IH]; [intros _ []|].
  simpl. rewrite cstr_cons. destruct (is_nul a); [intros _ []|].
  destruct (strrchr s c); [discriminate|].
  destruct (Ascii.eqb a c) eqn:E; [discriminate|]. intros _ [H | H].
  - apply Ascii.eqb_neq in E. contradiction.
  - now apply IH.
Qed.

(** What [strrchr] finds is the last occurrence: the string past it no
    longer holds the character. *)
Lemma strrchr_Some (s : buffer) (c : ascii) (i : nat) :
  strrchr s c = Some i ->
  exists pre, cstr s = pre ++ c :: cstr (skipn (S i) s)
              /\ ~ In c (cstr (skipn (S i) s)).
Proof.
  revert i. induction s as [|a s IH]; intros i; [discriminate|].
  simpl. rewrite cstr_cons. destruct (is_nul a); [discriminate|].
  destruct (strrchr s c) as [j|] eqn:Ej.
  - intros H. injection H as <-. destruct (IH j eq_refl) as [pre [Hp Hn]].
    exists (a :: pre). change (skipn (S (S j)) (a :: s)) with (skipn (S j) s).
    split; [|exact Hn]. rewrite Hp at 1. reflexivity.
  - destruct (Ascii.eqb a c) eqn:E; [|discriminate].
    intros H. injection H as <-. apply Ascii.eqb_eq in E. subst a.
    exists []. split; [reflexivity|]. now apply strrchr_None.
Qed.

(** The part after the last occurrence of a character is determined. *)
Lemma after_last_unique (c : ascii) (pre pre' base base' : list ascii) :
  pre ++ c :: base = pre' ++ c :: base' ->
  ~ In c base -> ~ In c base' -> base = base'.
Proof.
  revert pre'. induction pre as [|a pre IH]; intros [|a' pre'] H Hb Hb'.
  - now injection H.
  - injection H as _ H. exfalso. apply Hb. rewrite H.
    apply in_or_app. right. now left.
  - injection H as _ H. exfalso. apply Hb'. rewrite <- H.
    apply in_or_app. right. now left.
  - injection H as _ H. exact (IH pre' H Hb Hb').
Qed.

(** Where the pointer [filename] of [extract_metadata] lands: past the last
    slash when the path has one; else past the last backslash when it has
    one; else at the start. *)
Lemma filename_pointer_cstr (path : buffer) :
  (forall pre base, cstr path = pre ++ "/"%char :: base ->
     ~ In "/"%char base -> cstr (filename_pointer path) = base)
  /\ (~ In "/"%char (cstr path) ->
      forall pre base, cstr path = pre ++ "\"%char :: base ->
        ~ In "\"%char base -> cstr (filename_pointer path) = base)
  /\ (~ In "/"%char (cstr path) -> ~ In "\"%char (cstr path) ->
      cstr (filename_pointer path) = cstr path).
Proof.
  unfold filename_pointer.
  destruct (strrchr path "/") as [i|] eqn:Es.
  - destruct (strrchr_Some _ _ _ Es) as [pre0 [Hp Hn]].
    assert (Hin : In "/"%char (cstr path)).
    { rewrite Hp. apply in_or_app. right. now left. }
    split; [|split]; try contradiction.
    intros pre base H Hb. rewrite Hp in H.
    exact (after_last_unique _ _ _ _ _ H Hn Hb).
  - pose proof (strrchr_None _ _ Es) as Hno.
    split; [|split].
    + intros pre base H Hb. exfalso. apply Hno. rewrite H.
      apply in_or_app. right. now left.
    + intros _ pre base H Hb.
      destruct (strrchr path "\") as [i|] eqn:Eb.
      * destruct (strrchr_Some _ _ _ Eb) as [pre0 [Hp Hn]].
        rewrite Hp in H. exact (after_last_unique _ _ _ _ _ H Hn Hb).
      * exfalso. apply (strrchr_None _ _ Eb). rewrite H.
        apply in_or_app. right. now left.
    + intros _ Hnb.
      destruct (strrchr path "\") as [i|] eqn:Eb; [|reflexivity].
      destruct (strrchr_Some _ _ _ Eb) as [pre0 [Hp Hn]].
      exfalso. apply Hnb. rewrite Hp. apply in_or_app. right. now left.
Qed.

(** The name [extract_metadata] records for a validated path. *)
Lemma extract_metadata_filename (env : Env) (path : buffer)
    (md : ImageMetadata) :
  validate_filepath (Some path) = SECURITY_OK ->
  length (filename md) = 256%nat ->
  exists r md' log,
    extract_metadata env (Some path) (Some md) = (r, Some md', log)
    /\ cstr (filename md')
       = map sanitize_char (firstn 255 (cstr (filename_pointer path))).
Proof.
  intros Hv Hlen.
  destruct (extract_metadata_sanitizer_accepts md path) as [out Hs].
  rewrite (extract_metadata_unfold env path md out Hv Hs). cbv zeta.
  assert (Hout : cstr out
                 = map sanitize_char (firstn 255 (cstr (filename_pointer path)))).
  { rewrite (sanitize_filename_cstr _ _ _ Hs). unfold copied_basename.
    rewrite cstr_copy_into by lia. reflexivity. }
  destruct (stat env (cstr path)) as [file_stat|];
    [destruct (is_ok (validate_image_size (st_size file_stat)))|];
    try destruct (IMG_Load env (cstr path));
    do 3 eexists; (split; [reflexivity | exact Hout]).
Qed.

(** C6, as the claim states it, fails on the path [a/b\c]: the last
    separator is the backslash, so the claim's basename is [c]; the name
    recorded is [b\c], what follows the last slash. *)
Lemma extract_metadata_basename_counterexample :
  spec_basename (cstr (c_str "a/b\c")) = lit "c"
  /\ exists r md' log,
       extract_metadata env_no_file (Some (c_str "a/b\c")) (Some metadata_zero)
         = (r, Some md', log)
       /\ cstr (filename md') = lit "b\c"
       /\ cstr (filename md') <> spec_basename (cstr (c_str "a/b\c")).
Proof.
  split; [reflexivity|]. do 3 eexists.
  split; [vm_compute; reflexivity|]. split; [reflexivity | discriminate].
Qed.

(** The name recorded is sanitized as well: [x:y] is recorded as [x_y]. *)
Example extract_metadata_sanitizes :
  exists r md' log,
    extract_metadata env_no_file (Some (c_str "x:y")) (Some metadata_zero)
      = (r, Some md', log)
    /\ cstr (filename md') = lit "x_y".
Proof. do 3 eexists. split; [vm_compute; reflexivity | reflexivity]. Qed.

(** C6 (amended): for every validated path, the name recorded in the
    metadata is the sanitized copy (each character through the sanitizer's
    replacement, at most 255 characters) of: what follows the last slash
    when the path has a slash; otherwise what follows the last backslash
    when it has one; otherwise the whole path. *)
Theorem extract_metadata_basename (env : Env) (path : buffer)
    (md : ImageMetadata) :
  validate_filepath (Some path) = SECURITY_OK ->
  metadata_sized md ->
  exists r md' log,
    extract_metadata env (Some path) (Some md) = (r, Some md', log)
    /\ (forall pre base, cstr path = pre ++ "/"%char :: base ->
          ~ In "/"%char base ->
          cstr (filename md') = map sanitize_char (firstn 255 base))
    /\ (~ In "/"%char (cstr path) ->
        forall pre base, cstr path = pre ++ "\"%char :: base ->
          ~ In "\"%char base ->
          cstr (filename md') = map sanitize_char (firstn 255 base))
    /\ (~ In "/"%char (cstr path) -> ~ In "\"%char (cstr path) ->
        cstr (filename md') = map sanitize_char (firstn 255 (cstr path))).
Proof.
  intros Hv [Hlen _].
  destruct (extract_metadata_filename env path md Hv Hlen)
    as [r [md' [log [He Hn]]]].
  destruct (filename_pointer_cstr path) as [H1 [H2 H3]].
  exists r, md', log. split; [exact He|]. rewrite Hn. split; [|split].
  - intros pre base H Hb. now rewrite (H1 pre base H Hb).
  - intros Hs pre base H Hb. now rewrite (H2 Hs pre base H Hb).
  - intros Hs Hb. now rewrite (H3 Hs Hb).
Qed.

Lemma extract_metadata_basename_witness :
  exists r md' log,
    extract_metadata env_no_file (Some (c_str "pics/cat<1>.png"))
      (Some metadata_zero) = (r, Some md', log)
    /\ cstr (filename md') = lit "cat_1_.png".
Proof.
  destruct (extract_metadata_basename env_no_file (c_str "pics/cat<1>.png")
              metadata_zero) as [r [md' [log [He [H1 _]]]]].
  - vm_compute. reflexivity.
  - repeat split.
  - exists r, md', log. split; [exact He|].
    apply (H1 (lit "pics") (lit "cat<1>.png")).
    + reflexivity.
    + vm_compute. intuition discriminate.
Defined.

End MetadataExtractor.

(** ** ViewportEngine *)

Section ViewportEngine.

Local Open Scope Z_scope.

Lemma Qlt_make_inject (n : Z) (d : positive) (k : Z) :
  (n # d < inject_Z k)%Q <-> n < k * Zpos d.
Proof. unfold Qlt, inject_Z. simpl. now rewrite Z.mul_1_r. Qed.

Lemma Qle_inject_make (n : Z) (d : positive) (k : Z) :
  (inject_Z k <= n # d)%Q <-> k * Zpos d <= n.
Proof. unfold Qle, inject_Z. simpl. now rewrite Z.mul_1_r. Qed.

Lemma div_lt_iff (a d k : Z) : 0 < d -> (a / d < k <-> a < k * d).
Proof.
  intros Hd. split; intros H.
  - destruct (Z_lt_le_dec a (k * d)) as [Hlt | Hge]; [exact Hlt|].
    assert (k <= a / d) by (apply Z.div_le_lower_bound; lia). lia.
  - apply Z.div_lt_upper_bound; lia.
Qed.

(** The integer part lies under a positive bound exactly when the value
    does. *)
Lemma to_int_lt (f : float) (q : Q) (z k : Z) :
  to_Q f = Some q -> to_int f = Some z -> 0 < k ->
  (z < k <-> (q < inject_Z k)%Q).
Proof.
  intros Hq Hz Hk. destruct f as [sz | si | | s m e]; try discriminate.
  - injection Hq as <-. injection Hz as <-.
    change 0%Q with (inject_Z 0). rewrite <- Zlt_Qlt. lia.
  - unfold to_int in Hz. destruct (_ && _); [|discriminate].
    injection Hz as <-. destruct e as [|pe|pe]; cbn [to_Q truncate] in *;
      injection Hq as <-.
    + now rewrite <- Zlt_Qlt.
    + now rewrite <- Zlt_Qlt.
    + rewrite Qlt_make_inject. destruct s; cbn [cond_Zopp].
      * assert (0 <= Z.pos m / Z.pos (2 ^ pe))
          by (apply Z.div_pos; lia).
        split; intros _; [|lia].
        assert (0 < k * Z.pos (2 ^ pe)) by (apply Z.mul_pos_pos; lia). lia.
      * apply div_lt_iff. lia.
Qed.

(** From 1 on, the integer part is the floor of the value. *)
Lemma to_int_floor (f : float) (q : Q) (z : Z) :
  to_Q f = Some q -> to_int f = Some z -> 1 <= z -> z = Qfloor q.
Proof.
  intros Hq Hz Hpos. destruct f as [sz | si | | s m e]; try discriminate.
  - injection Hz as <-. lia.
  - unfold to_int in Hz. destruct (_ && _); [|discriminate].
    injection Hz as <-. destruct e as [|pe|pe]; cbn [to_Q truncate] in *;
      injection Hq as <-.
    + now rewrite Qfloor_Z.
    + now rewrite Qfloor_Z.
    + destruct s; cbn [cond_Zopp] in *; [|reflexivity].
      assert (0 <= Z.pos m / Z.pos (2 ^ pe)) by (apply Z.div_pos; lia). lia.
Qed.

(** The conversion is defined on every float whose value is in the range of
    [int]. *)
Lemma to_int_defined (f : float) (q : Q) :
  to_Q f = Some q -> in_int_range q -> exists z, to_int f = Some z.
Proof.
  intros Hq [Hlo Hhi]. destruct f as [sz | si | | s m e]; try discriminate.
  - now exists 0.
  - unfold to_int.
    assert (Hr : INT_MIN <= truncate s m e /\ truncate s m e <= INT_MAX).
    { destruct e as [|pe|pe]; cbn [to_Q truncate] in *; injection Hq as <-.
      - rewrite <- Zle_Qle in Hlo. rewrite <- Zlt_Qlt in Hhi. lia.
      - rewrite <- Zle_Qle in Hlo. rewrite <- Zlt_Qlt in Hhi. lia.
      - rewrite Qle_inject_make in Hlo. rewrite Qlt_make_inject in Hhi.
        assert (Hd : 0 < Z.pos (2 ^ pe)) by lia.
        assert (Hq0 : 0 <= Z.pos m / Z.pos (2 ^ pe)) by (apply Z.div_pos; lia).
        destruct s; cbn [cond_Zopp] in *.
        + assert (Z.pos m / Z.pos (2 ^ pe) < - INT_MIN + 1).
          { apply div_lt_iff; [exact Hd|].
            assert (0 < Z.pos (2 ^ pe)) by lia.
            unfold INT_MIN in *. lia. }
          unfold INT_MAX in *. unfold INT_MIN in *. lia.
        + assert (Z.pos m / Z.pos (2 ^ pe) < INT_MAX + 1)
            by (apply div_lt_iff; assumption).
          unfold INT_MIN. lia. }
    destruct Hr as [H1 H2].
    apply Z.leb_le in H1. apply Z.leb_le in H2. rewrite H1, H2.
    now eexists.
Qed.

(** [dest_rect] in free mode, from the two converted sizes. *)
Lemma dest_rect_free_unfold (app : App) (rw rh : Z) :
  fit_to_window app = 0 ->
  to_int (mul (of_int (image_width app)) (zoom app)) = Some rw ->
  to_int (mul (of_int (image_height app)) (zoom app)) = Some rh ->
  dest_rect app =
    if (rw <=? 0) || (rh <=? 0) || (rw >? 65536) || (rh >? 65536)
    then Some None
    else Some (Some
           {| x := int_add (pan_x app) (int_half (int_sub (window_width app) rw));
              y := int_add (pan_y app) (int_half (int_sub (window_height app) rh));
              w := rw; h := rh |}).
Proof.
  intros Hf Hw Hh. unfold dest_rect. rewrite Hf, Hw, Hh. reflexivity.
Qed.

(** C1, as the claim states it, fails after one press of [-]. With an image
    of 1 by 1 pixel the products are 13981013/16777216, between 0 and
    65536, and nothing is drawn; with an image of 2 by 2 pixels the
    products are 13981013/8388608, which round to 2, and the rectangle is 1
    by 1. *)
Lemma dest_rect_truncates_counterexample :
  (to_Q (mul (of_int (image_width (app_small 1))) (zoom (app_small 1)))
     = Some (13981013 # 16777216)
   /\ to_Q (mul (of_int (image_height (app_small 1))) (zoom (app_small 1)))
      = Some (13981013 # 16777216)
   /\ (0 < 13981013 # 16777216)%Q
   /\ (13981013 # 16777216 <= 65536)%Q
   /\ fit_to_window (app_small 1) = 0
   /\ dest_rect (app_small 1) = Some None)
  /\ (to_Q (mul (of_int (image_width (app_small 2))) (zoom (app_small 2)))
      = Some (13981013 # 8388608)
     /\ spec_round (13981013 # 8388608) = 2
     /\ exists rect, dest_rect (app_small 2) = Some (Some rect)
                     /\ w rect = 1 /\ h rect = 1).
Proof.
  split.
  - repeat split; try (vm_compute; reflexivity); vm_compute; discriminate.
  - split; [vm_compute; reflexivity|]. split; [vm_compute; reflexivity|].
    eexists. split; [vm_compute; reflexivity|]. split; reflexivity.
Qed.

(** C1 (amended): in free zoom/pan mode, whenever the single-precision
    products image_width*zoom and image_height*zoom are finite with values
    [qw] and [qh] in the range of [int], the viewport computation is
    defined; it returns no rectangle if and only if [qw] or [qh] is below 1
    or at least 65537, that is, if and only if the integer part of a
    product is <= 0 or > 65536; otherwise the width and height of the
    rectangle are the integer parts (floors) of [qw] and [qh], for every
    window size and pan. *)
Theorem dest_rect_free (app : App) (qw qh : Q) :
  fit_to_window app = 0 ->
  to_Q (mul (of_int (image_width app)) (zoom app)) = Some qw ->
  to_Q (mul (of_int (image_height app)) (zoom app)) = Some qh ->
  in_int_range qw -> in_int_range qh ->
  exists r,
    dest_rect app = Some r
    /\ (r = None <->
        (qw < 1 \/ qh < 1 \/ 65537 <= qw \/ 65537 <= qh)%Q)
    /\ (forall rect, r = Some rect ->
          w rect = Qfloor qw /\ h rect = Qfloor qh).
Proof.
  intros Hf Hqw Hqh Hrw Hrh.
  destruct (to_int_defined _ _ Hqw Hrw) as [rw Hw].
  destruct (to_int_defined _ _ Hqh Hrh) as [rh Hh].
  rewrite (dest_rect_free_unfold app rw rh Hf Hw Hh).
  pose proof (to_int_lt _ _ _ 1 Hqw Hw eq_refl) as Hw1.
  pose proof (to_int_lt _ _ _ 1 Hqh Hh eq_refl) as Hh1.
  pose proof (to_int_lt _ _ _ 65537 Hqw Hw eq_refl) as Hw2.
  pose proof (to_int_lt _ _ _ 65537 Hqh Hh eq_refl) as Hh2.
  change (inject_Z 1) with 1%Q in *. change (inject_Z 65537) with 65537%Q in *.
  destruct ((rw <=? 0) || (rh <=? 0) || (rw >? 65536) || (rh >? 65536))
    eqn:Ec.
  - exists None. split; [reflexivity|]. split; [|discriminate].
    split; [intros _ | reflexivity].
    rewrite !orb_true_iff, !Z.leb_le, !Z.gtb_ltb, !Z.ltb_lt in Ec.
    destruct Ec as [[[H | H] | H] | H].
    + left. apply Hw1. lia.
    + right. left. apply Hh1. lia.
    + right. right. left. apply Qnot_lt_le. intros Hc. apply Hw2 in Hc. lia.
    + right. right. right. apply Qnot_lt_le. intros Hc. apply Hh2 in Hc. lia.
  - rewrite !orb_false_iff, !Z.leb_gt, !Z.gtb_ltb, !Z.ltb_ge in Ec.
    destruct Ec as [[[Ha Hb] Hc] Hd].
    eexists. split; [reflexivity|]. split.
    + split; [discriminate|]. intros [H | [H | [H | H]]]; exfalso.
      * apply Hw1 in H. lia.
      * apply Hh1 in H. lia.
      * apply Qle_not_lt in H. apply H. apply Hw2. lia.
      * apply Qle_not_lt in H. apply H. apply Hh2. lia.
    + intros rect Hr. injection Hr as <-. cbn [w h]. split.
      * apply (to_int_floor _ _ _ Hqw Hw). lia.
      * apply (to_int_floor _ _ _ Hqh Hh). lia.
Qed.

Lemma dest_rect_free_witness :
  exists r,
    dest_rect app_zoomed = Some r
    /\ (r = None <->
        (15099495 # 16384 < 1 \/ 11324621 # 16384 < 1
         \/ 65537 <= 15099495 # 16384 \/ 65537 <= 11324621 # 16384)%Q)
    /\ (forall rect, r = Some rect ->
          w rect = Qfloor (15099495 # 16384)
          /\ h rect = Qfloor (11324621 # 16384)).
Proof.
  apply (dest_rect_free app_zoomed).
  - reflexivity.
  - vm_compute. reflexivity.
  - vm_compute. reflexivity.
  - split; vm_compute; [discriminate | reflexivity].
  - split; vm_compute; [discriminate | reflexivity].
Defined.

(** The rectangle at zoom 1.44 in a window of 800 by 600: 921 by 691. *)
Example dest_rect_zoomed :
  dest_rect app_zoomed = Some (Some {| x := -60; y := -45; w := 921; h := 691 |}).
Proof. vm_compute. reflexivity. Qed.

End ViewportEngine.

(** ** More on the security functions *)

Section SecurityMore.

Lemma length_strncpy_bytes (src : buffer) (k : nat) :
  length (strncpy_bytes src k) = k.
Proof.
  revert src. induction k as [|k IH]; intros src; [reflexivity|].
  destruct src as [|c src]; simpl; [now rewrite IH|].
  destruct (is_nul c); simpl; now rewrite IH.
Qed.

Lemma skipn_overwrite (d : buffer) (bytes : list ascii) :
  skipn (length bytes) (overwrite d bytes) = skipn (length bytes) d.
Proof.
  revert bytes. induction d as [|a d IH]; intros [|b bytes]; simpl; auto.
Qed.

Lemma skipn_store (s : buffer) (i n : nat) (c : ascii) :
  (i < n)%nat -> skipn n (store s i c) = skipn n s.
Proof.
  revert i n. induction s as [|a s IH]; intros i n H; [reflexivity|].
  destruct n as [|n]; [lia|]. destruct i as [|i]; simpl; [reflexivity|].
  apply IH. lia.
Qed.

(** X1: [secure_strncpy] into an array of at least [n > 0] bytes keeps the
    array's size, leaves in it the first [n - 1] characters of the source
    string, terminated, with a NUL at index [n - 1], and does not touch what
    lies from index [n] on. *)
Theorem secure_strncpy_bounded (d s : buffer) (n : nat) :
  (0 < n <= length d)%nat ->
  exists d',
    secure_strncpy (Some d) (Some s) n = Some d'
    /\ length d' = length d
    /\ cstr d' = firstn (n - 1) (cstr s)
    /\ nth_error d' (n - 1) = Some NUL
    /\ skipn n d' = skipn n d.
Proof.
  intros Hn. unfold secure_strncpy.
  destruct (n =? 0)%nat eqn:E; [apply Nat.eqb_eq in E; lia|].
  eexists. split; [reflexivity|]. unfold strncpy. repeat split.
  - now rewrite length_store, length_overwrite.
  - apply cstr_copy. lia.
  - apply nth_error_store. rewrite length_overwrite. lia.
  - rewrite skipn_store by lia.
    replace n with (1 + (n - 1))%nat at 1 3 by lia.
    rewrite <- !skipn_skipn.
    pose proof (skipn_overwrite d (strncpy_bytes s (n - 1))) as H.
    rewrite length_strncpy_bytes in H. now rewrite H.
Qed.

Lemma secure_strncpy_bounded_witness :
  exists d',
    secure_strncpy (Some (repeat "x"%char 8)) (Some (c_str "abcdefghij")) 4
      = Some d'
    /\ length d' = length (repeat "x"%char 8)
    /\ cstr d' = firstn (4 - 1) (cstr (c_str "abcdefghij"))
    /\ nth_error d' (4 - 1) = Some NUL
    /\ skipn 4 d' = skipn 4 (repeat "x"%char 8).
Proof.
  apply (secure_strncpy_bounded (repeat "x"%char 8) (c_str "abcdefghij") 4).
  split; apply Nat.leb_le; reflexivity.
Defined.

(** X2: for [n] at most the size of the buffer, [secure_memzero(p, n)] sets
    exactly the first [n] bytes to zero and leaves the bytes after them as
    they are; with [n = 0] nothing changes. *)
Theorem secure_memzero_prefix (b : buffer) (n : nat) :
  (n <= length b)%nat ->
  secure_memzero (Some b) n = Some (repeat NUL n ++ skipn n b)
  /\ secure_memzero (Some b) 0 = Some b.
Proof.
  intros Hn. split; [|reflexivity].
  unfold secure_memzero. destruct n as [|n]; [reflexivity|].
  change (0 <? S n)%nat with true. cbv iota.
  rewrite for_range_store_nul. now rewrite Nat.min_l by exact Hn.
Qed.

Lemma secure_memzero_prefix_witness :
  secure_memzero (Some (lit "ABCDEF")) 4
    = Some (repeat NUL 4 ++ skipn 4 (lit "ABCDEF"))
  /\ secure_memzero (Some (lit "ABCDEF")) 0 = Some (lit "ABCDEF").
Proof.
  apply (secure_memzero_prefix (lit "ABCDEF") 4).
  apply Nat.leb_le. reflexivity.
Defined.

Lemma memset_nul_all (bytes : buffer) (n : nat) :
  length bytes = n -> memset bytes NUL n = repeat NUL n.
Proof.
  intros H. unfold memset. rewrite for_range_store_nul, H, Nat.min_id.
  rewrite <- H, skipn_all. apply app_nil_r.
Qed.

(** X3: [safe_malloc] succeeds exactly when [ptr] is not NULL, the size is
    between 1 and [SIZE_MAX / 2] and the allocator answers; the block it
    then hands out holds [size] zero bytes whatever the allocator left in
    it, and the other blocks are as before. On failure the heap is
    unchanged. *)
Theorem safe_malloc_zeroed (SIZE_MAX : N)
    (malloc : nat -> option (addr * buffer)) (m : memory)
    (ptr : option (option addr)) (size : nat)
    (r : SecurityResult) (m' : memory) (p' : option (option addr)) :
  (forall n a bytes, malloc n = Some (a, bytes) -> length bytes = n) ->
  safe_malloc SIZE_MAX malloc m ptr size = (r, m', p') ->
  (r = SECURITY_OK <->
     ptr <> None /\ (0 < size)%nat /\ (N.of_nat size <= SIZE_MAX / 2)%N
     /\ malloc size <> None)
  /\ (r = SECURITY_OK ->
      exists a, p' = Some (Some a)
                /\ live m' a = Some (repeat NUL size)
                /\ forall x, x <> a -> live m' x = live m x)
  /\ (r <> SECURITY_OK -> m' = m).
Proof.
  intros Hm H. unfold safe_malloc in H.
  destruct ptr as [q|].
  2:{ injection H as <- <- <-. split; [|split]; try discriminate;
        [|reflexivity]. split; [discriminate|]. intros [Hc _]. contradiction. }
  destruct (size =? 0)%nat eqn:E0.
  { injection H as <- <- <-. apply Nat.eqb_eq in E0.
    split; [|split]; try discriminate; [|reflexivity].
    split; [discriminate|]. intros [_ [Hc _]]. lia. }
  destruct (SIZE_MAX / 2 <? N.of_nat size)%N eqn:E1.
  { injection H as <- <- <-. apply N.ltb_lt in E1.
    split; [|split]; try discriminate; [|reflexivity].
    split; [discriminate|]. intros [_ [_ [Hc _]]]. lia. }
  apply Nat.eqb_neq in E0. apply N.ltb_ge in E1. cbn [orb] in H.
  destruct (malloc size) as [[a bytes]|] eqn:Ea.
  - injection H as <- <- <-. split; [|split].
    + split; [intros _ | reflexivity].
      repeat split; try discriminate; [lia | exact E1].
    + intros _. exists a. split; [reflexivity|]. split.
      * unfold set_block. cbn [live]. rewrite Nat.eqb_refl.
        now rewrite (memset_nul_all _ _ (Hm _ _ _ Ea)).
      * intros x Hx. unfold set_block. cbn [live].
        apply Nat.eqb_neq in Hx. now rewrite Hx.
    + intros Hc. contradiction.
  - injection H as <- <- <-.
    split; [|split]; try discriminate; [|reflexivity].
    split; [discriminate|]. intros [_ [_ [_ Hc]]]. contradiction.
Qed.

Lemma safe_malloc_zeroed_witness :
  (SECURITY_OK = SECURITY_OK <->
     Some (@None addr) <> None /\ (0 < 4)%nat
     /\ (N.of_nat 4 <= SIZE_MAX_64 / 2)%N /\ malloc_at_5 4 <> None)
  /\ (SECURITY_OK = SECURITY_OK ->
      exists a, Some (Some 5%nat) = Some (Some a)
                /\ live (set_block heap_empty 5
                           (Some (memset (repeat "x"%char 4) NUL 4))) a
                   = Some (repeat NUL 4)
                /\ forall x, x <> a ->
                     live (set_block heap_empty 5
                             (Some (memset (repeat "x"%char 4) NUL 4))) x
                     = live heap_empty x)
  /\ (SECURITY_OK <> SECURITY_OK ->
      set_block heap_empty 5 (Some (memset (repeat "x"%char 4) NUL 4))
      = heap_empty).
Proof.
  apply (safe_malloc_zeroed SIZE_MAX_64 malloc_at_5 heap_empty (Some None) 4).
  - intros n a bytes H. unfold malloc_at_5 in H. injection H as _ <-.
    apply repeat_length.
  - reflexivity.
Defined.

(** X4: a second [safe_free] through the same pointer does nothing: the
    first call leaves the pointer NULL and the block no longer live, so no
    block is released twice. [safe_free] on NULL, and on a pointer to NULL,
    is a no-op: memory and pointer are as before. *)
Theorem safe_free_twice (m : memory) (ptr : option (option addr)) :
  safe_free (fst (safe_free m ptr)) (snd (safe_free m ptr)) = safe_free m ptr
  /\ (ptr = None \/ snd (safe_free m ptr) = Some None)
  /\ (forall a, ptr = Some (Some a) -> live (fst (safe_free m ptr)) a = None)
  /\ safe_free m None = (m, None)
  /\ safe_free m (Some None) = (m, Some None).
Proof.
  destruct ptr as [[a|]|]; cbn [safe_free fst snd].
  - split; [reflexivity|]. split; [now right|]. split; [|now split].
    intros a0 H. injection H as <-.
    unfold free, set_block. cbn [live]. rewrite Nat.eqb_refl.
    rewrite secure_memzero_0.
    destruct (live m a); cbn [live]; now rewrite Nat.eqb_refl.
  - split; [reflexivity|]. split; [now right|].
    split; [discriminate | now split].
  - split; [reflexivity|]. split; [now left|].
    split; [discriminate | now split].
Qed.

(** X5: allocating with [safe_malloc] and releasing with [safe_free] gives
    back the heap's live blocks as they were; the block released holds the
    zeros it was handed out with. *)
Theorem safe_malloc_safe_free (SIZE_MAX : N)
    (malloc : nat -> option (addr * buffer)) (m m1 : memory) (size : nat)
    (a : addr) :
  (forall n a bytes, malloc n = Some (a, bytes) ->
     length bytes = n /\ live m a = None) ->
  safe_malloc SIZE_MAX malloc m (Some None) size
    = (SECURITY_OK, m1, Some (Some a)) ->
  snd (safe_free m1 (Some (Some a))) = Some None
  /\ (forall x, live (fst (safe_free m1 (Some (Some a)))) x = live m x)
  /\ released (fst (safe_free m1 (Some (Some a))))
     = released m ++ [(a, repeat NUL size)].
Proof.
  intros Hm H. unfold safe_malloc in H.
  destruct ((size =? 0)%nat || (SIZE_MAX / 2 <? N.of_nat size)%N);
    [discriminate|].
  destruct (malloc size) as [[a0 bytes]|] eqn:Ea; [|discriminate].
  injection H as <- <-. destruct (Hm _ _ _ Ea) as [Hl Hf].
  split; [reflexivity|].
  cbn [safe_free fst]. unfold free, set_block. cbn [live released].
  rewrite Nat.eqb_refl, secure_memzero_0. cbn [live released]. split.
  - intros x. destruct (x =? a0)%nat eqn:Ex; [|reflexivity].
    apply Nat.eqb_eq in Ex. now subst x.
  - now rewrite (memset_nul_all _ _ Hl).
Qed.

Lemma safe_malloc_safe_free_witness :
  snd (safe_free (set_block heap_empty 5
                    (Some (memset (repeat "x"%char 4) NUL 4)))
         (Some (Some 5%nat))) = Some None
  /\ (forall x,
        live (fst (safe_free (set_block heap_empty 5
                                (Some (memset (repeat "x"%char 4) NUL 4)))
                     (Some (Some 5%nat)))) x = live heap_empty x)
  /\ released (fst (safe_free (set_block heap_empty 5
                                 (Some (memset (repeat "x"%char 4) NUL 4)))
                      (Some (Some 5%nat))))
     = released heap_empty ++ [(5%nat, repeat NUL 4)].
Proof.
  apply (safe_malloc_safe_free SIZE_MAX_64 malloc_at_5 heap_empty _ 4 5).
  - intros n a bytes H. unfold malloc_at_5 in H. injection H as _ <-.
    split; [apply repeat_length | reflexivity].
  - reflexivity.
Defined.

(** X6: [validate_image_size] accepts exactly the sizes from 0 to
    [MAX_FILE_SIZE] (100 MiB, included), answers
    [SECURITY_ERROR_FILE_TOO_LARGE] exactly above it and
    [SECURITY_ERROR_INVALID_INPUT] exactly below 0. *)
Theorem validate_image_size_cases (size : Z) :
  (validate_image_size size = SECURITY_OK <-> (0 <= size <= MAX_FILE_SIZE)%Z)
  /\ (validate_image_size size = SECURITY_ERROR_FILE_TOO_LARGE <->
      (MAX_FILE_SIZE < size)%Z)
  /\ (validate_image_size size = SECURITY_ERROR_INVALID_INPUT <->
      (size < 0)%Z).
Proof.
  unfold validate_image_size.
  assert (0 < MAX_FILE_SIZE)%Z by reflexivity.
  destruct (size <? 0)%Z eqn:E0.
  - apply Z.ltb_lt in E0. repeat split; intros; try discriminate; lia.
  - apply Z.ltb_ge in E0. rewrite Z.gtb_ltb.
    destruct (MAX_FILE_SIZE <? size)%Z eqn:E1.
    + apply Z.ltb_lt in E1. repeat split; intros; try discriminate; lia.
    + apply Z.ltb_ge in E1. repeat split; intros; try discriminate; lia.
Qed.

(** X7: a path that is not NULL is accepted by [validate_filepath] exactly
    when it has between 1 and 4095 characters and does not contain two
    consecutive dots. *)
Theorem validate_filepath_ok_iff (p : buffer) :
  validate_filepath (Some p) = SECURITY_OK <->
  (0 < strlen p < MAX_PATH_LENGTH)%nat /\ ~ contains (lit "..") (cstr p).
Proof.
  rewrite validate_filepath_cases.
  rewrite <- (strstr_spec (lit "..") p dotdot_no_nul) by discriminate.
  destruct (strlen p =? 0)%nat eqn:E0;
    [apply Nat.eqb_eq in E0 | apply Nat.eqb_neq in E0];
    (destruct (MAX_PATH_LENGTH <=? strlen p)%nat eqn:E1;
     [apply Nat.leb_le in E1 | apply Nat.leb_gt in E1]); cbn [orb];
    try (split; [discriminate | intros [Hc _]; lia]).
  destruct (is_some (strstr p (lit ".."))).
  - split; [discriminate|]. intros [_ Hc]. exfalso. now apply Hc.
  - split; [|reflexivity]. intros _. split; [lia | discriminate].
Qed.

(** X8: [validate_filepath] reads the path up to its first NUL only:
    whatever bytes follow the terminator, the answer is the same. *)
Theorem validate_filepath_ignores_tail (p r : buffer) :
  validate_filepath (Some (cstr p ++ NUL :: r)) = validate_filepath (Some p).
Proof.
  pose proof (validate_filepath_cstr (cstr p ++ NUL :: r)) as H.
  rewrite (cstr_app_nul _ _ (cstr_no_nul p)) in H.
  etransitivity; [exact H|]. symmetry. apply validate_filepath_cstr.
Qed.

End SecurityMore.

(** ** More on the sanitizer *)

Section SanitizerMore.

Lemma sanitize_char_idem (c : ascii) :
  sanitize_char (sanitize_char c) = sanitize_char c.
Proof.
  destruct c as [b0 b1 b2 b3 b4 b5 b6 b7].
  destruct b0, b1, b2, b3, b4, b5, b6, b7; reflexivity.
Qed.

Lemma sanitize_char_fix (c : ascii) :
  sanitize_char c = c <-> is_clean c = true.
Proof.
  destruct c as [b0 b1 b2 b3 b4 b5 b6 b7].
  destruct b0, b1, b2, b3, b4, b5, b6, b7; vm_compute;
    split; intros H; try reflexivity; discriminate H.
Qed.

Lemma store_app_r (l r : list ascii) (i : nat) (c : ascii) :
  (length l <= i)%nat -> store (l ++ r) i c = l ++ store r (i - length l) c.
Proof.
  revert i. induction l as [|a l IH]; intros i H; simpl.
  - now rewrite Nat.sub_0_r.
  - destruct i as [|i]; [simpl in H; lia|]. simpl in H.
    simpl. now rewrite IH by lia.
Qed.

Lemma store_store (s : buffer) (i : nat) (c : ascii) :
  store (store s i c) i c = store s i c.
Proof.
  revert i. induction s as [|a s IH]; intros [|i]; simpl; auto.
  now rewrite IH.
Qed.

Lemma skipn_app_length (l r : list ascii) : skipn (length l) (l ++ r) = r.
Proof. induction l as [|a l IH]; simpl; auto. Qed.

Lemma map_fix_Forall (f : ascii -> ascii) (l : list ascii) :
  map f l = l <-> Forall (fun c => f c = c) l.
Proof.
  induction l as [|a l IH]; simpl.
  - split; [constructor | reflexivity].
  - split.
    + intros H. injection H as Ha Hl. constructor; [exact Ha | now apply IH].
    + intros H. inversion H as [|x y Ha Hl]; subst.
      rewrite Ha. f_equal. now apply IH.
Qed.

(** X9: sanitizing a name that was already sanitized (same bound) changes
    nothing: the buffer comes back byte for byte. *)
Theorem sanitize_filename_idempotent (buf : buffer) (n : nat) (out : buffer) :
  sanitize_filename (Some buf) n = (SECURITY_OK, Some out) ->
  sanitize_filename (Some out) n = (SECURITY_OK, Some out).
Proof.
  intros H. pose proof (sanitize_filename_cstr _ _ _ H) as Hc.
  destruct (sanitize_filename_ok _ _ _ _ H eq_refl) as [Hn [Hl Ho]].
  injection Ho as Ho.
  assert (Hs : strlen out = strlen buf)
    by (rewrite <- !length_cstr, Hc; apply length_map).
  destruct (sanitize_filename_succeeds out n) as [out2 H2]; [lia|].
  rewrite H2. f_equal. f_equal.
  destruct (sanitize_filename_ok _ _ _ _ H2 eq_refl) as [_ [_ Ho2]].
  injection Ho2 as ->. rewrite Hc, Hs.
  set (X := map sanitize_char (cstr buf)) in *.
  set (R := skipn (strlen buf) buf) in *.
  assert (Hx : length X = strlen buf)
    by (unfold X; rewrite length_map; apply length_cstr).
  assert (Hout : out = X ++ store R (n - 1 - length X) NUL)
    by (rewrite Ho; apply store_app_r; lia).
  replace (map sanitize_char X) with X
    by (unfold X; rewrite map_map; apply map_ext; intros c; symmetry;
        apply sanitize_char_idem).
  rewrite <- Hx, Hout, skipn_app_length.
  rewrite store_app_r by lia. now rewrite store_store.
Qed.

Lemma sanitize_filename_idempotent_witness :
  sanitize_filename (Some (c_str "a_b_c" ++ repeat NUL 2)) 8
    = (SECURITY_OK, Some (c_str "a_b_c" ++ repeat NUL 2)).
Proof.
  apply (sanitize_filename_idempotent small_name_buffer 8). reflexivity.
Defined.

(** X10: a successful [sanitize_filename] keeps the length of the name, and
    returns the name unchanged exactly when every character of it is
    printable or whitespace and none is reserved. *)
Theorem sanitize_filename_clean (buf : buffer) (n : nat) (out : buffer) :
  sanitize_filename (Some buf) n = (SECURITY_OK, Some out) ->
  strlen out = strlen buf
  /\ (cstr out = cstr buf <-> Forall (fun c => is_clean c = true) (cstr buf)).
Proof.
  intros H. pose proof (sanitize_filename_cstr _ _ _ H) as Hc. split.
  - rewrite <- !length_cstr, Hc. apply length_map.
  - rewrite Hc, map_fix_Forall. split; intros HF;
      (eapply Forall_impl; [|exact HF]); intros c Hcl; now apply sanitize_char_fix.
Qed.

Lemma sanitize_filename_clean_witness :
  strlen (c_str "a_b_c" ++ repeat NUL 2) = strlen small_name_buffer
  /\ (cstr (c_str "a_b_c" ++ repeat NUL 2) = cstr small_name_buffer <->
      Forall (fun c => is_clean c = true) (cstr small_name_buffer)).
Proof.
  apply (sanitize_filename_clean small_name_buffer 8). reflexivity.
Defined.

(** X11: [sanitize_filename] succeeds exactly when the bound is above the
    length of the name; a NULL name or a bound of 0 is answered
    [SECURITY_ERROR_INVALID_INPUT], a name of at least [max_len] characters
    [SECURITY_ERROR_PATH_TOO_LONG], and in these cases the buffer is left
    untouched. *)
Theorem sanitize_filename_errors (max_len : nat) :
  sanitize_filename None max_len = (SECURITY_ERROR_INVALID_INPUT, None)
  /\ forall buf : buffer,
       (fst (sanitize_filename (Some buf) max_len) = SECURITY_OK <->
          (strlen buf < max_len)%nat)
       /\ (max_len = 0%nat ->
           sanitize_filename (Some buf) max_len
             = (SECURITY_ERROR_INVALID_INPUT, Some buf))
       /\ ((0 < max_len <= strlen buf)%nat ->
           sanitize_filename (Some buf) max_len
             = (SECURITY_ERROR_PATH_TOO_LONG, Some buf)).
Proof.
  split; [reflexivity|]. intros buf. unfold sanitize_filename.
  destruct (max_len =? 0)%nat eqn:E0;
    [apply Nat.eqb_eq in E0 | apply Nat.eqb_neq in E0].
  - split; [split; [discriminate | lia]|]. split; [reflexivity | lia].
  - destruct (max_len <=? strlen buf)%nat eqn:E1;
      [apply Nat.leb_le in E1 | apply Nat.leb_gt in E1]; cbn [fst].
    + split; [split; [discriminate | lia]|]. split; [lia | reflexivity].
    + split; [split; [intros _; exact E1 | reflexivity]|]. split; lia.
Qed.

End SanitizerMore.

(** ** Format names *)

Section FormatName.

Lemma strrchr_In (s : buffer) (c : ascii) (i : nat) :
  strrchr s c = Some i -> In c (cstr s).
Proof.
  intros H. destruct (strrchr_Some _ _ _ H) as [pre [Hp _]].
  rewrite Hp. apply in_or_app. right. now left.
Qed.

Lemma strcasecmp_eq_true (a b : buffer) :
  strcasecmp_eq a b = true <-> map tolower (cstr a) = map tolower (cstr b).
Proof.
  unfold strcasecmp_eq. destruct (list_eq_dec _ _ _); split; congruence.
Qed.

Lemma get_format_name_five (path : option buffer) :
  In (get_format_name path)
     [c_str "PNG"; c_str "JPEG"; c_str "BMP"; c_str "GIF"; Unknown].
Proof.
  unfold get_format_name. destruct path as [p|]; [|cbn [In]; auto 10].
  repeat match goal with
         | |- context [if ?b then _ else _] => destruct b
         | |- context [match ?o with Some _ => _ | None => _ end] => destruct o
         end; cbn [In]; auto 10.
Qed.

(** X12: [get_format_name] answers one of the five names PNG, JPEG, BMP,
    GIF and Unknown, whatever the path. *)
Theorem get_format_name_range (path : option buffer) :
  In (get_format_name path)
     [c_str "PNG"; c_str "JPEG"; c_str "BMP"; c_str "GIF"; Unknown].
Proof. exact (get_format_name_five path). Qed.

(** Where [get_format_name] gets once it has found the extension. *)
Lemma get_format_name_ext (p : buffer) (pre ext : list ascii) :
  cstr p = pre ++ "."%char :: ext ->
  ~ In "."%char ext ->
  (strlen p <= MAX_PATH_LENGTH)%nat ->
  exists e,
    cstr e = ext
    /\ get_format_name (Some p) =
         if (10 <? strlen e)%nat then Unknown
         else if strcasecmp_eq e (c_str "png") then c_str "PNG"
         else if strcasecmp_eq e (c_str "jpg")
                 || strcasecmp_eq e (c_str "jpeg") then c_str "JPEG"
         else if strcasecmp_eq e (c_str "bmp") then c_str "BMP"
         else if strcasecmp_eq e (c_str "gif") then c_str "GIF"
         else Unknown.
Proof.
  intros Hp Hext Hlen. unfold get_format_name.
  assert (Hnz : strlen p <> 0%nat).
  { rewrite <- length_cstr, Hp, length_app. simpl. lia. }
  apply Nat.eqb_neq in Hnz. rewrite Hnz.
  assert (Hle : (MAX_PATH_LENGTH <? strlen p)%nat = false)
    by (apply Nat.ltb_ge; exact Hlen).
  rewrite Hle. cbn [orb].
  destruct (strrchr p ".") as [i|] eqn:Es.
  - destruct (strrchr_Some _ _ _ Es) as [pre0 [Hp0 Hn0]].
    exists (skipn (S i) p). split; [|reflexivity].
    rewrite Hp0 in Hp. exact (after_last_unique _ _ _ _ _ Hp Hn0 Hext).
  - exfalso. apply (strrchr_None _ _ Es). rewrite Hp.
    apply in_or_app. right. now left.
Qed.

(** X13: the format is read off the text after the last dot of the path,
    whatever its case: [png] gives PNG, [jpg] and [jpeg] give JPEG, [bmp]
    gives BMP, [gif] gives GIF, and any other text after the last dot gives
    Unknown. *)
Theorem get_format_name_extension (p : buffer) (pre ext : list ascii) :
  cstr p = pre ++ "."%char :: ext ->
  ~ In "."%char ext ->
  (strlen p <= MAX_PATH_LENGTH)%nat ->
  (forall name, In (map tolower ext, name) format_table ->
     get_format_name (Some p) = name)
  /\ ((forall name, ~ In (map tolower ext, name) format_table) ->
      get_format_name (Some p) = Unknown).
Proof.
  intros Hp Hext Hlen.
  destruct (get_format_name_ext p pre ext Hp Hext Hlen) as [e [He Hg]].
  rewrite Hg. clear Hg. split.
  - intros name Hin.
    assert (Hs : strlen e = length (map tolower ext))
      by (rewrite length_map, <- He; symmetry; apply length_cstr).
    unfold strcasecmp_eq. rewrite Hs, He.
    cbn [In format_table] in Hin.
    destruct Hin as [H | [H | [H | [H | [H | []]]]]];
      injection H as Hm <-; rewrite <- Hm; reflexivity.
  - intros Hno.
    assert (Hf : forall k name,
               In (map tolower (cstr (c_str k)), name) format_table ->
               strcasecmp_eq e (c_str k) = false).
    { intros k name Hin. destruct (strcasecmp_eq e (c_str k)) eqn:E;
        [|reflexivity].
      apply strcasecmp_eq_true in E. rewrite He in E.
      exfalso. apply (Hno name). now rewrite E. }
    rewrite (Hf "png"%string (c_str "PNG")) by (cbn; auto).
    rewrite (Hf "jpg"%string (c_str "JPEG")) by (cbn; auto).
    rewrite (Hf "jpeg"%string (c_str "JPEG")) by (cbn; auto 10).
    rewrite (Hf "bmp"%string (c_str "BMP")) by (cbn; auto 10).
    rewrite (Hf "gif"%string (c_str "GIF")) by (cbn; auto 10).
    cbn [orb]. now destruct (10 <? strlen e)%nat.
Qed.

Lemma get_format_name_extension_witness :
  (forall name, In (map tolower (lit "JPeG"), name) format_table ->
     get_format_name (Some (c_str "photos/Cat.JPeG")) = name)
  /\ ((forall name, ~ In (map tolower (lit "JPeG"), name) format_table) ->
      get_format_name (Some (c_str "photos/Cat.JPeG")) = Unknown).
Proof.
  apply (get_format_name_extension (c_str "photos/Cat.JPeG")
           (lit "photos/Cat") (lit "JPeG")).
  - reflexivity.
  - vm_compute. intuition discriminate.
  - apply Nat.leb_le. reflexivity.
Defined.

(** A NULL path, and every path without a dot, has format Unknown. *)
Lemma get_format_name_no_dot :
  get_format_name None = Unknown
  /\ forall p : buffer, ~ In "."%char (cstr p) ->
       get_format_name (Some p) = Unknown.
Proof.
  split; [reflexivity|]. intros p H. unfold get_format_name.
  destruct (_ || _)%nat; [reflexivity|].
  destruct (strrchr p ".") as [i|] eqn:Es; [|reflexivity].
  exfalso. apply H. exact (strrchr_In _ _ _ Es).
Qed.

End FormatName.

(** ** More on the loader *)

Section LoaderMore.

(** Every way through [load_image_secure], for an equation [H] on its
    result. *)
Ltac load_cases H :=
  rewrite load_image_secure_unfold in H;
  match type of H with
  | context [validate_filepath (Some ?p)] =>
      destruct (validate_filepath (Some p)) eqn:Ev
  end;
  try match type of H with
      | context [stat ?env ?q] =>
          destruct (stat env q) as [file_stat|] eqn:Es
      end;
  try match type of H with
      | context [validate_image_size ?z] =>
          destruct (validate_image_size z) eqn:Ez
      end;
  try match type of H with
      | context [IMG_Load ?env ?q] =>
          destruct (IMG_Load env q) as [surface|] eqn:Ei
      end;
  try match type of H with
      | context [if ?b then _ else _] => destruct b eqn:Ed
      end;
  cbv zeta in H;
  try match type of H with
      | context [image_texture ?a] =>
          destruct (image_texture a) as [held|] eqn:Et
      end;
  try match type of H with
      | context [SDL_CreateTextureFromSurface ?env ?sf] =>
          destruct (SDL_CreateTextureFromSurface env sf) as [made|] eqn:Ec
      end;
  injection H as <- <- <-.

(** A surface that [reaches_texture_creation] is the one the decoder
    returned, and the earlier steps have all passed. *)
Lemma reaches_inv (env : Env) (p : buffer) (surface : SDL_Surface) :
  reaches_texture_creation env (Some p) surface ->
  validate_filepath (Some p) = SECURITY_OK
  /\ (exists file_stat, stat env (cstr p) = Some file_stat
         /\ validate_image_size (st_size file_stat) = SECURITY_OK)
  /\ IMG_Load env (cstr p) = Some surface
  /\ ((surface_w surface <=? 0) || (surface_h surface <=? 0)
      || (surface_w surface >? 32768) || (surface_h surface >? 32768))%Z
     = false.
Proof.
  intros [p0 [st [Hp [Hv [Hs [Hz [Hi Hd]]]]]]]. injection Hp as <-.
  repeat split; try assumption; [now exists st | now apply dimensions_ok_test].
Qed.

Ltac no_reach :=
  let s := fresh "s" in let Hr := fresh "Hr" in
  intros [s [? [Hr ?]]]; apply reaches_inv in Hr;
  destruct Hr as [? [[? [? ?]] [? ?]]]; congruence.

(** X15: [load_image] returns 1 exactly when the path is valid, can be
    statted, is small enough, decodes to a surface of 1 to 32768 pixels each
    way, and the texture is made; the [App] then holds the new texture and
    the surface's dimensions, its other fields as before. It returns 0
    otherwise, and then the dimensions recorded in the [App] are as
    before. *)
Theorem load_image_success (env : Env) (app : App) (p : buffer)
    (ret : Z) (app' : option App) (calls : list Call)
    (lines : list SDL_Log_call) :
  load_image env (Some app) (Some p) = (ret, app', calls, lines) ->
  (ret = 1%Z <->
     exists surface t,
       reaches_texture_creation env (Some p) surface
       /\ SDL_CreateTextureFromSurface env surface = Some t)
  /\ (ret = 1%Z ->
      exists surface t,
        SDL_CreateTextureFromSurface env surface = Some t
        /\ IMG_Load env (cstr p) = Some surface
        /\ app' = Some (set_image_size (set_image_texture app (Some t))
                          (surface_w surface) (surface_h surface))
        /\ (1 <= surface_w surface <= 32768)%Z
        /\ (1 <= surface_h surface <= 32768)%Z
        /\ lines = [SDL_Log_loaded (cstr p) (surface_w surface)
                      (surface_h surface)])
  /\ (ret <> 1%Z ->
      ret = 0%Z
      /\ forall a, app' = Some a ->
           image_width a = image_width app
           /\ image_height a = image_height app).
Proof.
  unfold load_image.
  destruct (load_image_secure env (Some app) (Some p)) as [[r a1] l1] eqn:H.
  intros Hl.
  load_cases H; injection Hl as <- <- <- <-;
    try (split; [split; [discriminate | no_reach]
                | split; [discriminate
                         | intros _; split; [reflexivity|];
                           intros a Ha; injection Ha as <-; split; reflexivity]]).
  all: assert (Hreach : reaches_texture_creation env (Some p) surface)
    by (exists p, file_stat; repeat split; try assumption;
        apply dimensions_ok_test; assumption).
  all: pose proof (proj1 (dimensions_ok_test surface) Ed) as [Hw Hh].
  all: (split; [split; [intros _; exists surface, made; now split | reflexivity]|]).
  all: (split; [|intros Hc; contradiction]).
  all: intros _; exists surface, made; repeat split; try assumption;
       try apply Hw; try apply Hh.
Qed.

Lemma load_image_success_witness :
  (1%Z = 1%Z <->
     exists surface t,
       reaches_texture_creation env_ok (Some (c_str "x.png")) surface
       /\ SDL_CreateTextureFromSurface env_ok surface = Some t)
  /\ (1%Z = 1%Z ->
      exists surface t,
        SDL_CreateTextureFromSurface env_ok surface = Some t
        /\ IMG_Load env_ok (cstr (c_str "x.png")) = Some surface
        /\ Some (set_image_size (set_image_texture app_showing (Some 9%nat))
                   10 10)
           = Some (set_image_size (set_image_texture app_showing (Some t))
                     (surface_w surface) (surface_h surface))
        /\ (1 <= surface_w surface <= 32768)%Z
        /\ (1 <= surface_h surface <= 32768)%Z
        /\ [SDL_Log_loaded (lit "x.png") 10 10]
           = [SDL_Log_loaded (cstr (c_str "x.png")) (surface_w surface)
                (surface_h surface)])
  /\ (1%Z <> 1%Z ->
      1%Z = 0%Z
      /\ forall a,
           Some (set_image_size (set_image_texture app_showing (Some 9%nat))
                   10 10) = Some a ->
           image_width a = image_width app_showing
           /\ image_height a = image_height app_showing).
Proof.
  apply (load_image_success env_ok app_showing (c_str "x.png") 1
           (Some (set_image_size (set_image_texture app_showing (Some 9%nat))
                    10 10))
           [call_stat (lit "x.png"); call_IMG_Load (lit "x.png");
            call_SDL_DestroyTexture 7%nat;
            call_SDL_CreateTextureFromSurface
              {| surface_w := 10; surface_h := 10; BitsPerPixel := 32 |};
            call_SDL_FreeSurface
              {| surface_w := 10; surface_h := 10; BitsPerPixel := 32 |}]).
  reflexivity.
Defined.

(** X16: [load_image_secure] never leaks and never double-frees the decoded
    surface: when the decoder was called and returned a surface, the log
    holds exactly one [SDL_FreeSurface], of that surface, as its last call;
    when the decoder was not called or failed, it holds none. *)
Theorem load_image_secure_frees_surface (env : Env) (app : App) (p : buffer)
    (r : SecurityResult) (app' : option App) (log : list Call) :
  load_image_secure env (Some app) (Some p) = (r, app', log) ->
  (forall s, In (call_SDL_FreeSurface s) log ->
     IMG_Load env (cstr p) = Some s /\ In (call_IMG_Load (cstr p)) log)
  /\ (In (call_IMG_Load (cstr p)) log ->
      forall s, IMG_Load env (cstr p) = Some s ->
        filter is_call_SDL_FreeSurface log = [call_SDL_FreeSurface s]
        /\ exists before, log = before ++ [call_SDL_FreeSurface s])
  /\ (~ In (call_IMG_Load (cstr p)) log ->
      filter is_call_SDL_FreeSurface log = []).
Proof.
  intros H. load_cases H; cbn [In List.app filter is_call_SDL_FreeSurface].
  all: split;
    [intros s Hs; repeat destruct Hs as [Hs | Hs];
     try discriminate Hs; try contradiction;
     injection Hs as <-; (split; [reflexivity | tauto])|].
  all: split;
    [|intros Hn; try reflexivity; exfalso; apply Hn; tauto].
  all: intros Hin s Hs;
    try (repeat destruct Hin as [Hin | Hin];
         try discriminate Hin; contradiction);
    try discriminate Hs; injection Hs as <-; (split; [reflexivity|]).
  - now exists [call_stat (cstr p); call_IMG_Load (cstr p)].
  - now exists [call_stat (cstr p); call_IMG_Load (cstr p);
                call_SDL_DestroyTexture held;
                call_SDL_CreateTextureFromSurface surface].
  - now exists [call_stat (cstr p); call_IMG_Load (cstr p);
                call_SDL_DestroyTexture held;
                call_SDL_CreateTextureFromSurface surface].
  - now exists [call_stat (cstr p); call_IMG_Load (cstr p);
                call_SDL_CreateTextureFromSurface surface].
  - now exists [call_stat (cstr p); call_IMG_Load (cstr p);
                call_SDL_CreateTextureFromSurface surface].
Qed.

Lemma load_image_secure_frees_surface_witness :
  (forall s,
     In (call_SDL_FreeSurface s)
        [call_stat (lit "x.png"); call_IMG_Load (lit "x.png");
         call_SDL_DestroyTexture 7%nat;
         call_SDL_CreateTextureFromSurface
           {| surface_w := 10; surface_h := 10; BitsPerPixel := 32 |};
         call_SDL_FreeSurface
           {| surface_w := 10; surface_h := 10; BitsPerPixel := 32 |}] ->
     IMG_Load env_ok (cstr (c_str "x.png")) = Some s
     /\ In (call_IMG_Load (cstr (c_str "x.png")))
          [call_stat (lit "x.png"); call_IMG_Load (lit "x.png");
           call_SDL_DestroyTexture 7%nat;
           call_SDL_CreateTextureFromSurface
             {| surface_w := 10; surface_h := 10; BitsPerPixel := 32 |};
           call_SDL_FreeSurface
             {| surface_w := 10; surface_h := 10; BitsPerPixel := 32 |}])
  /\ filter is_call_SDL_FreeSurface
       [call_stat (lit "x.png"); call_IMG_Load (lit "x.png");
        call_SDL_DestroyTexture 7%nat;
        call_SDL_CreateTextureFromSurface
          {| surface_w := 10; surface_h := 10; BitsPerPixel := 32 |};
        call_SDL_FreeSurface
          {| surface_w := 10; surface_h := 10; BitsPerPixel := 32 |}]
     = [call_SDL_FreeSurface
          {| surface_w := 10; surface_h := 10; BitsPerPixel := 32 |}].
Proof.
  destruct (load_image_secure_frees_surface env_ok app_showing
              (c_str "x.png") SECURITY_OK
              (Some (set_image_size
                       (set_image_texture app_showing (Some 9%nat)) 10 10))
              [call_stat (lit "x.png"); call_IMG_Load (lit "x.png");
               call_SDL_DestroyTexture 7%nat;
               call_SDL_CreateTextureFromSurface
                 {| surface_w := 10; surface_h := 10; BitsPerPixel := 32 |};
               call_SDL_FreeSurface
                 {| surface_w := 10; surface_h := 10; BitsPerPixel := 32 |}]
              eq_refl) as [H1 [H2 _]].
  split; [exact H1|].
  apply (H2 (or_intror (or_introl eq_refl))
            {| surface_w := 10; surface_h := 10; BitsPerPixel := 32 |} eq_refl).
Defined.

(** X17: [load_image_secure] never holds two textures: a texture is
    destroyed only if it is the one the [App] held, and only directly before
    the call that creates its replacement; whenever a texture is created the
    one held before has been destroyed and the [App] ends up holding what
    the creation returned; and when no creation is attempted the [App] is
    untouched. *)
Theorem load_image_secure_one_texture (env : Env) (app : App) (p : buffer)
    (r : SecurityResult) (app' : option App) (log : list Call) :
  load_image_secure env (Some app) (Some p) = (r, app', log) ->
  (forall t, In (call_SDL_DestroyTexture t) log ->
     image_texture app = Some t
     /\ exists before s after,
          log = before ++ call_SDL_DestroyTexture t
                            :: call_SDL_CreateTextureFromSurface s :: after)
  /\ (forall s, In (call_SDL_CreateTextureFromSurface s) log ->
      (forall t, image_texture app = Some t ->
         In (call_SDL_DestroyTexture t) log)
      /\ exists a, app' = Some a
                   /\ image_texture a = SDL_CreateTextureFromSurface env s)
  /\ ((forall s, ~ In (call_SDL_CreateTextureFromSurface s) log) ->
      app' = Some app).
Proof.
  intros H. load_cases H; cbn [In List.app].
  all: split;
    [intros t Ht; repeat destruct Ht as [Ht | Ht];
     try discriminate Ht; try contradiction;
     injection Ht as <-; (split; [reflexivity|]);
     exists [call_stat (cstr p); call_IMG_Load (cstr p)], surface,
            [call_SDL_FreeSurface surface]; reflexivity|].
  all: split;
    [|intros Hn; try reflexivity; exfalso; apply (Hn surface); tauto].
  all: intros s Hs; repeat destruct Hs as [Hs | Hs];
    try discriminate Hs; try contradiction; injection Hs as <-.
  all: split;
    [intros t Ht; try discriminate Ht; injection Ht as <-; tauto
    |eexists; split; [reflexivity|]; cbn [image_texture set_image_texture
                                          set_image_size]; congruence].
Qed.

Lemma load_image_secure_one_texture_witness :
  image_texture app_showing = Some 7%nat
  /\ exists before s after,
       [call_stat (lit "x.png"); call_IMG_Load (lit "x.png");
        call_SDL_DestroyTexture 7%nat;
        call_SDL_CreateTextureFromSurface
          {| surface_w := 10; surface_h := 10; BitsPerPixel := 32 |};
        call_SDL_FreeSurface
          {| surface_w := 10; surface_h := 10; BitsPerPixel := 32 |}]
       = before ++ call_SDL_DestroyTexture 7%nat
                     :: call_SDL_CreateTextureFromSurface s :: after.
Proof.
  apply (proj1 (load_image_secure_one_texture env_ok app_showing
                  (c_str "x.png") SECURITY_OK
                  (Some (set_image_size
                           (set_image_texture app_showing (Some 9%nat)) 10 10))
                  [call_stat (lit "x.png"); call_IMG_Load (lit "x.png");
                   call_SDL_DestroyTexture 7%nat;
                   call_SDL_CreateTextureFromSurface
                     {| surface_w := 10; surface_h := 10; BitsPerPixel := 32 |};
                   call_SDL_FreeSurface
                     {| surface_w := 10; surface_h := 10; BitsPerPixel := 32 |}]
                  eq_refl) 7%nat).
  cbn [In]. tauto.
Defined.

(** X18: what [main] does after a successful load: with the same file
    system and decoder, [extract_metadata] on the path just loaded succeeds,
    and the width and height it records are the dimensions the [App] got,
    each between 1 and 32768. *)
Theorem load_then_extract (env : Env) (app : App) (p : buffer) (a' : App)
    (log : list Call) (md : ImageMetadata) :
  load_image_secure env (Some app) (Some p) = (SECURITY_OK, Some a', log) ->
  exists md' log',
    extract_metadata env (Some p) (Some md) = (1%Z, Some md', log')
    /\ width md' = image_width a' /\ height md' = image_height a'
    /\ (1 <= width md' <= 32768)%Z /\ (1 <= height md' <= 32768)%Z.
Proof.
  remember SECURITY_OK as r eqn:Hr. remember (Some a') as oa eqn:Ho.
  intros H. load_cases H; try discriminate Hr.
  all: injection Ho as <-.
  all: destruct (extract_metadata_sanitizer_accepts md p) as [out Hs].
  all: rewrite (extract_metadata_unfold env p md out Ev Hs).
  all: rewrite Es, Ez, Ei; cbv zeta; cbn [is_ok].
  all: apply dimensions_ok_test in Ed; destruct Ed as [Hw Hh].
  all: do 2 eexists; (split; [reflexivity|]); repeat split;
       try apply Hw; apply Hh.
Qed.

Lemma load_then_extract_witness :
  exists md' log',
    extract_metadata env_ok (Some (c_str "x.png")) (Some metadata_zero)
      = (1%Z, Some md', log')
    /\ width md'
       = image_width (set_image_size
                        (set_image_texture app_showing (Some 9%nat)) 10 10)
    /\ height md'
       = image_height (set_image_size
                         (set_image_texture app_showing (Some 9%nat)) 10 10)
    /\ (1 <= width md' <= 32768)%Z /\ (1 <= height md' <= 32768)%Z.
Proof.
  apply (load_then_extract env_ok app_showing (c_str "x.png")
           (set_image_size (set_image_texture app_showing (Some 9%nat)) 10 10)
           [call_stat (lit "x.png"); call_IMG_Load (lit "x.png");
            call_SDL_DestroyTexture 7%nat;
            call_SDL_CreateTextureFromSurface
              {| surface_w := 10; surface_h := 10; BitsPerPixel := 32 |};
            call_SDL_FreeSurface
              {| surface_w := 10; surface_h := 10; BitsPerPixel := 32 |}]
           metadata_zero).
  reflexivity.
Defined.

End LoaderMore.

(** ** More on metadata *)

Section MetadataMore.

Lemma validate_image_size_ok_range (size : Z) :
  validate_image_size size = SECURITY_OK -> (0 <= size <= MAX_FILE_SIZE)%Z.
Proof.
  unfold validate_image_size.
  destruct (size <? 0)%Z eqn:E0; [discriminate|].
  destruct (size >? MAX_FILE_SIZE)%Z eqn:E1; [discriminate|]. intros _.
  apply Z.ltb_ge in E0. rewrite Z.gtb_ltb in E1. apply Z.ltb_ge in E1. lia.
Qed.

(** A successful extraction has a validated path. *)
Lemma extract_metadata_valid (env : Env) (path : buffer) (md : ImageMetadata)
    (md' : option ImageMetadata) (log : list Call) :
  extract_metadata env (Some path) (Some md) = (1%Z, md', log) ->
  validate_filepath (Some path) = SECURITY_OK.
Proof.
  unfold extract_metadata.
  destruct (validate_filepath (Some path)); cbn [is_ok negb];
    try discriminate. reflexivity.
Qed.

(** X19: whatever the path, once it is validated the name recorded in the
    metadata holds only printable characters, whitespace and ['_'], none of
    the reserved characters, and at most 255 characters. *)
Theorem extract_metadata_display_name (env : Env) (path : buffer)
    (md : ImageMetadata) :
  validate_filepath (Some path) = SECURITY_OK ->
  exists r md' log,
    extract_metadata env (Some path) (Some md) = (r, Some md', log)
    /\ Forall (fun c => display_safe c = true /\ is_reserved c = false)
         (cstr (filename md'))
    /\ (strlen (filename md') <= 255)%nat.
Proof.
  intros Hv.
  destruct (extract_metadata_sanitizer_accepts md path) as [out Hs].
  rewrite (extract_metadata_unfold env path md out Hv Hs). cbv zeta.
  pose proof (sanitize_filename_cstr _ _ _ Hs) as Hc.
  assert (HF : Forall (fun c => display_safe c = true /\ is_reserved c = false)
                 (cstr out)).
  { rewrite Hc. apply Forall_forall. intros c Hin. apply in_map_iff in Hin.
    destruct Hin as [c0 [<- _]]. split; apply sanitize_char_facts. }
  assert (HL : (strlen out <= 255)%nat).
  { rewrite <- length_cstr, Hc, length_map, length_cstr.
    pose proof (strlen_copy_into (filename md) (filename_pointer path) 256).
    unfold copied_basename. lia. }
  destruct (stat env (cstr path)) as [file_stat|];
    [destruct (is_ok (validate_image_size (st_size file_stat)))|];
    try destruct (IMG_Load env (cstr path));
    do 3 eexists; (split; [reflexivity | split; [exact HF | exact HL]]).
Qed.

Lemma extract_metadata_display_name_witness :
  exists r md' log,
    extract_metadata env_ok (Some (c_str "pics/cat<1>.png"))
      (Some metadata_zero) = (r, Some md', log)
    /\ Forall (fun c => display_safe c = true /\ is_reserved c = false)
         (cstr (filename md'))
    /\ (strlen (filename md') <= 255)%nat.
Proof.
  apply (extract_metadata_display_name env_ok (c_str "pics/cat<1>.png")
           metadata_zero).
  vm_compute. reflexivity.
Defined.

(** X20: after a successful extraction the size recorded lies between 0 and
    [MAX_FILE_SIZE]; size and the two timestamps are those stat reported, or
    all 0 when stat failed. *)
Theorem extract_metadata_file_info (env : Env) (path : buffer)
    (md md' : ImageMetadata) (log : list Call) :
  extract_metadata env (Some path) (Some md) = (1%Z, Some md', log) ->
  (0 <= file_size md' <= MAX_FILE_SIZE)%Z
  /\ match stat env (cstr path) with
     | Some file_stat =>
         file_size md' = st_size file_stat
         /\ creation_time md' = st_ctime file_stat
         /\ modification_time md' = st_mtime file_stat
     | None =>
         file_size md' = 0%Z /\ creation_time md' = 0%Z
         /\ modification_time md' = 0%Z
     end.
Proof.
  intros H. pose proof (extract_metadata_valid _ _ _ _ _ H) as Hv.
  destruct (extract_metadata_sanitizer_accepts md path) as [out Hs].
  rewrite (extract_metadata_unfold env path md out Hv Hs) in H. cbv zeta in H.
  assert (0 < MAX_FILE_SIZE)%Z by reflexivity.
  destruct (stat env (cstr path)) as [file_stat|].
  - destruct (validate_image_size (st_size file_stat)) eqn:Ez;
      cbn [is_ok] in H; try discriminate H.
    apply validate_image_size_ok_range in Ez.
    destruct (IMG_Load env (cstr path)); injection H as <- _;
      unfold MAX_FILE_SIZE in *; cbn; repeat split; lia.
  - destruct (IMG_Load env (cstr path)); injection H as <- _;
      unfold MAX_FILE_SIZE in *; cbn; repeat split; lia.
Qed.

Lemma extract_metadata_file_info_witness :
  exists md',
    (0 <= file_size md' <= MAX_FILE_SIZE)%Z
    /\ match stat env_ok (cstr (c_str "x.png")) with
       | Some file_stat =>
           file_size md' = st_size file_stat
           /\ creation_time md' = st_ctime file_stat
           /\ modification_time md' = st_mtime file_stat
       | None =>
           file_size md' = 0%Z /\ creation_time md' = 0%Z
           /\ modification_time md' = 0%Z
       end.
Proof.
  eexists.
  eapply (extract_metadata_file_info env_ok (c_str "x.png") metadata_zero).
  vm_compute. reflexivity.
Defined.

(** X21: for a validated path the [filepath] field holds the first 511
    characters of the path (a longer path is cut), and the [format] field
    holds the name [get_format_name] gives, uncut. *)
Theorem extract_metadata_path_format (env : Env) (path : buffer)
    (md : ImageMetadata) :
  validate_filepath (Some path) = SECURITY_OK ->
  metadata_sized md ->
  exists r md' log,
    extract_metadata env (Some path) (Some md) = (r, Some md', log)
    /\ cstr (filepath md') = firstn 511 (cstr path)
    /\ cstr (format md') = cstr (get_format_name (Some path)).
Proof.
  intros Hv [_ [Hp Hf]].
  destruct (extract_metadata_sanitizer_accepts md path) as [out Hs].
  rewrite (extract_metadata_unfold env path md out Hv Hs). cbv zeta.
  assert (H1 : cstr (copy_into (filepath md) path 512) = firstn 511 (cstr path))
    by (rewrite cstr_copy_into by lia; reflexivity).
  assert (H2 : cstr (copy_into (format md) (get_format_name (Some path)) 32)
               = cstr (get_format_name (Some path))).
  { rewrite cstr_copy_into by lia.
    pose proof (get_format_name_five (Some path)) as Hin. cbn [In] in Hin.
    destruct Hin as [H | [H | [H | [H | [H | []]]]]]; rewrite <- H;
      reflexivity. }
  destruct (stat env (cstr path)) as [file_stat|];
    [destruct (is_ok (validate_image_size (st_size file_stat)))|];
    try destruct (IMG_Load env (cstr path));
    do 3 eexists; (split; [reflexivity | split; [exact H1 | exact H2]]).
Qed.

Lemma extract_metadata_path_format_witness :
  exists r md' log,
    extract_metadata env_ok (Some (c_str "pics/Cat.JPG")) (Some metadata_zero)
      = (r, Some md', log)
    /\ cstr (filepath md') = firstn 511 (cstr (c_str "pics/Cat.JPG"))
    /\ cstr (format md') = cstr (get_format_name (Some (c_str "pics/Cat.JPG"))).
Proof.
  apply (extract_metadata_path_format env_ok (c_str "pics/Cat.JPG")
           metadata_zero).
  - vm_compute. reflexivity.
  - repeat split.
Defined.

(** X22: after a successful extraction, width, height and bits per pixel
    are those of the decoded surface, or all 0 when decoding failed. *)
Theorem extract_metadata_pixel_info (env : Env) (path : buffer)
    (md md' : ImageMetadata) (log : list Call) :
  extract_metadata env (Some path) (Some md) = (1%Z, Some md', log) ->
  match IMG_Load env (cstr path) with
  | Some surface =>
      width md' = surface_w surface /\ height md' = surface_h surface
      /\ bits_per_pixel md' = BitsPerPixel surface
  | None => width md' = 0%Z /\ height md' = 0%Z /\ bits_per_pixel md' = 0%Z
  end.
Proof.
  intros H. pose proof (extract_metadata_valid _ _ _ _ _ H) as Hv.
  destruct (extract_metadata_sanitizer_accepts md path) as [out Hs].
  rewrite (extract_metadata_unfold env path md out Hv Hs) in H. cbv zeta in H.
  destruct (stat env (cstr path)) as [file_stat|];
    [destruct (is_ok (validate_image_size (st_size file_stat)));
     [|discriminate H]|];
    destruct (IMG_Load env (cstr path)); injection H as <- _;
    repeat split.
Qed.

Lemma extract_metadata_pixel_info_witness :
  exists md',
    match IMG_Load env_no_decode (cstr (c_str "x.png")) with
    | Some surface =>
        width md' = surface_w surface /\ height md' = surface_h surface
        /\ bits_per_pixel md' = BitsPerPixel surface
    | None => width md' = 0%Z /\ height md' = 0%Z /\ bits_per_pixel md' = 0%Z
    end.
Proof.
  eexists.
  eapply (extract_metadata_pixel_info env_no_decode (c_str "x.png")
            metadata_zero).
  vm_compute. reflexivity.
Defined.

(** X23: whether extraction succeeds never depends on the decoder: two
    environments that answer stat alike give the same return value. *)
Theorem extract_metadata_decoder_independent (env1 env2 : Env)
    (path : buffer) (md : ImageMetadata) :
  stat env1 (cstr path) = stat env2 (cstr path) ->
  fst (fst (extract_metadata env1 (Some path) (Some md)))
  = fst (fst (extract_metadata env2 (Some path) (Some md))).
Proof.
  intros Hst.
  destruct (SecurityResult_eq_dec (validate_filepath (Some path)) SECURITY_OK)
    as [Hv | Hv].
  2:{ unfold extract_metadata.
      destruct (validate_filepath (Some path)); try reflexivity.
      contradiction. }
  destruct (extract_metadata_sanitizer_accepts md path) as [out Hs].
  rewrite !(extract_metadata_unfold _ path md out Hv Hs). cbv zeta.
  rewrite Hst.
  destruct (stat env2 (cstr path)) as [file_stat|];
    [destruct (is_ok (validate_image_size (st_size file_stat)));
     [|reflexivity]|];
    destruct (IMG_Load env1 (cstr path)), (IMG_Load env2 (cstr path));
    reflexivity.
Qed.

Lemma extract_metadata_decoder_independent_witness :
  fst (fst (extract_metadata env_ok (Some (c_str "x.png")) (Some metadata_zero)))
  = fst (fst (extract_metadata env_no_decode (Some (c_str "x.png"))
                (Some metadata_zero))).
Proof.
  apply (extract_metadata_decoder_independent env_ok env_no_decode
           (c_str "x.png") metadata_zero).
  reflexivity.
Defined.

(** X24: the calls of [extract_metadata]: stat is called exactly when the
    path is validated; the decoder is called exactly when extraction
    succeeds, so never after the size check has rejected the file; and the
    decoded surface, when there is one, is freed exactly once. The return
    value is 0 or 1. *)
Theorem extract_metadata_calls (env : Env) (path : buffer)
    (md : ImageMetadata) (r : Z) (md' : option ImageMetadata)
    (log : list Call) :
  extract_metadata env (Some path) (Some md) = (r, md', log) ->
  (In (call_stat (cstr path)) log <->
     validate_filepath (Some path) = SECURITY_OK)
  /\ (In (call_IMG_Load (cstr path)) log <-> r = 1%Z)
  /\ filter is_call_SDL_FreeSurface log
     = (if (r =? 1)%Z then
          match IMG_Load env (cstr path) with
          | Some surface => [call_SDL_FreeSurface surface]
          | None => []
          end
        else [])
  /\ (r = 0%Z \/ r = 1%Z).
Proof.
  destruct (SecurityResult_eq_dec (validate_filepath (Some path)) SECURITY_OK)
    as [Hv | Hv].
  2:{ unfold extract_metadata.
      destruct (validate_filepath (Some path)); try contradiction;
        cbn [is_ok negb]; intros H; injection H as <- <- <-;
        cbn [In filter Z.eqb];
        (split; [split; [contradiction | discriminate]|]);
        (split; [split; [contradiction | discriminate]|]);
        (split; [reflexivity | now left]). }
  destruct (extract_metadata_sanitizer_accepts md path) as [out Hs].
  rewrite (extract_metadata_unfold env path md out Hv Hs). cbv zeta.
  destruct (stat env (cstr path)) as [file_stat|];
    [destruct (is_ok (validate_image_size (st_size file_stat)))|];
    try destruct (IMG_Load env (cstr path));
    intros H; injection H as <- <- <-;
    cbn [In filter is_call_SDL_FreeSurface Z.eqb Pos.eqb];
    (split; [split; [intros _; exact Hv | tauto]|]);
    (split; [split; [intros Hin; try reflexivity;
                     repeat destruct Hin as [Hin | Hin];
                     try discriminate Hin; contradiction
                    | intros Hr; try discriminate Hr; tauto]|]);
    (split; [reflexivity | tauto]).
Qed.

Lemma extract_metadata_calls_witness :
  (In (call_stat (cstr (c_str "big.png"))) [call_stat (lit "big.png")] <->
     validate_filepath (Some (c_str "big.png")) = SECURITY_OK)
  /\ (In (call_IMG_Load (cstr (c_str "big.png"))) [call_stat (lit "big.png")]
      <-> 0%Z = 1%Z)
  /\ filter is_call_SDL_FreeSurface [call_stat (lit "big.png")]
     = (if (0 =? 1)%Z then
          match IMG_Load env_big (cstr (c_str "big.png")) with
          | Some surface => [call_SDL_FreeSurface surface]
          | None => []
          end
        else [])
  /\ (0%Z = 0%Z \/ 0%Z = 1%Z).
Proof.
  apply (extract_metadata_calls env_big (c_str "big.png") metadata_zero 0
           (Some (set_format
                    (set_filename
                       (set_filepath metadata_zero
                          (copy_into (filepath metadata_zero)
                             (c_str "big.png") 512))
                       (c_str "big.png" ++ repeat NUL 248))
                    (copy_into (format metadata_zero)
                       (get_format_name (Some (c_str "big.png"))) 32)))).
  vm_compute. reflexivity.
Defined.

End MetadataMore.

(** ** More on events *)

Section EventsMore.

Local Open Scope Z_scope.

Lemma handle_event_frame (app : App) (event : SDL_Event) :
  window (handle_event app event) = window app
  /\ renderer (handle_event app event) = renderer app
  /\ image_texture (handle_event app event) = image_texture app
  /\ image_width (handle_event app event) = image_width app
  /\ image_height (handle_event app event) = image_height app.
Proof.
  destruct event as [|ev d1 d2|sym|wy|]; cbn [handle_event].
  - repeat split.
  - destruct ev; repeat split.
  - destruct sym; repeat split.
  - destruct (wy >? 0); [repeat split|]. destruct (wy <? 0); repeat split.
  - repeat split.
Qed.

(** X25: no event changes what is shown or the SDL handles: after any queue
    of events, window, renderer, texture and image dimensions are as
    before. *)
Theorem handle_events_frame (app : App) (queue : list SDL_Event) :
  window (handle_events app queue) = window app
  /\ renderer (handle_events app queue) = renderer app
  /\ image_texture (handle_events app queue) = image_texture app
  /\ image_width (handle_events app queue) = image_width app
  /\ image_height (handle_events app queue) = image_height app.
Proof.
  unfold handle_events. revert app.
  induction queue as [|event queue IH]; intros app; [repeat split|].
  cbn [fold_left].
  destruct (IH (handle_event app event)) as [H1 [H2 [H3 [H4 H5]]]].
  destruct (handle_event_frame app event) as [E1 [E2 [E3 [E4 E5]]]].
  rewrite H1, H2, H3, H4, H5. now repeat split.
Qed.

Lemma handle_event_invariant (app : App) (event : SDL_Event) :
  view_invariant app -> view_invariant (handle_event app event).
Proof.
  unfold view_invariant, is_flag.
  intros [Hx [Hy [Hr [Hf Hs]]]].
  destruct event as [|ev d1 d2|sym|wy|]; cbn [handle_event].
  - cbn. tauto.
  - destruct ev; cbn; tauto.
  - destruct sym; cbn; try tauto.
    unfold lnot. destruct (show_info app =? 0); tauto.
  - destruct (wy >? 0); [cbn; tauto|]. destruct (wy <? 0); cbn; tauto.
  - tauto.
Qed.

Lemma handle_events_invariant_from (app : App) (queue : list SDL_Event) :
  view_invariant app -> view_invariant (handle_events app queue).
Proof.
  unfold handle_events. revert app.
  induction queue as [|event queue IH]; intros app H; [exact H|].
  cbn [fold_left]. apply IH. now apply handle_event_invariant.
Qed.

(** X26: in every state reached from the initial one, whatever the events,
    the pan is (0,0) and the flags [running], [fit_to_window] and
    [show_info] hold 0 or 1: no event ever moves the image. *)
Theorem handle_events_invariant (win : SDL_Window) (ren : SDL_Renderer)
    (ww wh : Z) (queue : list SDL_Event) :
  view_invariant (handle_events (initial_app win ren ww wh) queue).
Proof.
  apply handle_events_invariant_from. unfold view_invariant, is_flag. cbn.
  tauto.
Qed.

Lemma handle_event_stopped (app : App) (event : SDL_Event) :
  running app = 0 -> running (handle_event app event) = 0.
Proof.
  intros H. destruct event as [|ev d1 d2|sym|wy|]; cbn [handle_event].
  - reflexivity.
  - destruct ev; assumption.
  - destruct sym; cbn; try assumption; reflexivity.
  - destruct (wy >? 0); [assumption|]. destruct (wy <? 0); assumption.
  - assumption.
Qed.

(** X27: once [running] is 0 no event sets it again: the viewer cannot be
    restarted by input. *)
Theorem handle_events_stopped (app : App) (queue : list SDL_Event) :
  running app = 0 -> running (handle_events app queue) = 0.
Proof.
  unfold handle_events. revert app.
  induction queue as [|event queue IH]; intros app H; [exact H|].
  cbn [fold_left]. apply IH. now apply handle_event_stopped.
Qed.

Lemma handle_events_stopped_witness :
  running (handle_events (set_running app_showing 0)
             [SDL_KEYDOWN SDLK_f; SDL_MOUSEWHEEL 1;
              SDL_WINDOWEVENT SDL_WINDOWEVENT_RESIZED 640 480]) = 0.
Proof.
  apply (handle_events_stopped (set_running app_showing 0)). reflexivity.
Defined.

(** X28: pressing [i] twice gives back the state it started from, provided
    [show_info] held 0 or 1. *)
Theorem toggle_info_twice (app : App) :
  is_flag (show_info app) ->
  handle_events app [SDL_KEYDOWN SDLK_i; SDL_KEYDOWN SDLK_i] = app.
Proof.
  intros [H | H]; destruct app; cbn in *; subst; reflexivity.
Qed.

Lemma toggle_info_twice_witness :
  handle_events app_showing [SDL_KEYDOWN SDLK_i; SDL_KEYDOWN SDLK_i]
  = app_showing.
Proof.
  apply (toggle_info_twice app_showing). left. reflexivity.
Defined.

End EventsMore.

(** ** More on the viewport *)

Section ViewportMore.

Local Open Scope Z_scope.




End ViewportMore.

(** ** Logging and shutdown *)

Section Shutdown.

(** X30: [log_message] never logs more than the first 1024 characters of
    the message: its last line is the message cut to 1024 characters, a
    message of at most 1024 characters is logged whole in a single line,
    and for a longer one the scratch copy is all zero when the function
    returns. *)
Theorem log_message_bounded (truncated msg : buffer) :
  length truncated = 1025%nat ->
  last (fst (log_message truncated (Some msg))) (SDL_Log_text [])
    = SDL_Log_text (firstn 1024 (cstr msg))
  /\ ((strlen msg <= 1024)%nat ->
      log_message truncated (Some msg)
        = ([SDL_Log_text (cstr msg)], truncated))
  /\ ((1024 < strlen msg)%nat ->
      snd (log_message truncated (Some msg)) = repeat NUL 1025).
Proof.
  intros Hlen. unfold log_message.
  destruct (1024 <? strlen msg)%nat eqn:E;
    [apply Nat.ltb_lt in E | apply Nat.ltb_ge in E].
  - cbn [fst snd last]. split; [|split].
    + now rewrite cstr_copy_into by lia.
    + lia.
    + intros _. unfold secure_memzero.
      change (0 <? 1025)%nat with true. cbv iota.
      rewrite for_range_store_nul, length_copy_into, Hlen, Nat.min_id.
      rewrite <- Hlen at 2. rewrite <- (length_copy_into truncated msg 1025).
      rewrite skipn_all. apply app_nil_r.
  - cbn [fst snd last]. split; [|split].
    + rewrite firstn_all2; [reflexivity|]. now rewrite length_cstr.
    + reflexivity.
    + lia.
Qed.

Lemma log_message_bounded_witness :
  last (fst (log_message stack_garbage (Some long_message))) (SDL_Log_text [])
    = SDL_Log_text (firstn 1024 (cstr long_message))
  /\ ((strlen long_message <= 1024)%nat ->
      log_message stack_garbage (Some long_message)
        = ([SDL_Log_text (cstr long_message)], stack_garbage))
  /\ ((1024 < strlen long_message)%nat ->
      snd (log_message stack_garbage (Some long_message)) = repeat NUL 1025).
Proof.
  apply (log_message_bounded stack_garbage long_message).
  apply repeat_length.
Defined.

(** X14: [cleanup] leaves the [App] holding nothing and destroys what it
    held once each, the texture first, then the renderer, then the window;
    a second [cleanup] on the same [App] destroys nothing. *)
Theorem cleanup_once (app : App) :
  fst (cleanup (Some app)) = Some app_zero
  /\ filter is_destroy (snd (cleanup (Some app)))
     = match image_texture app with
       | Some t => [cleanup_SDL_DestroyTexture t]
       | None => []
       end
       ++ match renderer app with
          | Some r => [cleanup_SDL_DestroyRenderer r]
          | None => []
          end
       ++ match window app with
          | Some win => [cleanup_SDL_DestroyWindow win]
          | None => []
          end
  /\ filter is_destroy (snd (cleanup (fst (cleanup (Some app))))) = [].
Proof.
  split; [reflexivity|]. split; [|reflexivity].
  cbn [cleanup snd].
  destruct (image_texture app), (renderer app), (window app); reflexivity.
Qed.

End Shutdown.
